(** * Delegated-routing directory of [repro.mjs]

    A shallow embedding of the routing server of [src/repro.mjs]
    ([createDelegatedRouterServer], lines 39-116) and of the routing-key
    derivation ([pubsubTopicToDhtKeyCid], lines 31-37), with the properties
    the specification states about them.  The router is verified for every
    identifier parser and URL parser; the hash and the identifier format the
    derivation relies on are modelled after their standards.

    Conventions.
    - A JavaScript string is a [string]: the bytes of its UTF-8 text.  The
      path of a serialised URL is ASCII, where bytes and code units agree.
    - A JavaScript number holding a count or a time in milliseconds is a
      [Z]: such numbers stay far below [2^53], where they are exact.
    - A call that may throw returns a [completion]; the state is threaded
      explicitly, so the effects done before a throw are kept.
    - Each [Date.now()] call is an argument of the function that makes it. *)

From Stdlib Require Import String Ascii List ZArith Lia Bool.
From Stdlib Require DecimalString DecimalNat.
Import ListNotations.

Open Scope string_scope.
Open Scope Z_scope.

(** ** The JavaScript built-ins the program calls *)

Module JS.

(** The exceptions in play: [TypeError] from [new URL], [URIError] from
    [decodeURIComponent], [Error] from the identifier parser. *)
Inductive error : Type := TypeError | URIError | Error.

Inductive completion (A : Type) : Type :=
| Normal (a : A)
| Throw (e : error).
Arguments Normal {A} a.
Arguments Throw {A} e.

(** [s.startsWith(p)] *)
Definition startsWith (s p : string) : bool := String.prefix p s.

(** [s.slice(n)] for [0 <= n] *)
Definition slice (s : string) (n : nat) : string :=
  String.substring n (String.length s - n)%nat s.

Definition code (c : ascii) : Z := Z.of_nat (nat_of_ascii c).
Definition char (b : Z) : ascii := ascii_of_nat (Z.to_nat b).

(** One hexadecimal digit, as [ParseHexOctet] reads it. *)
Definition hex_digit (c : ascii) : option Z :=
  let n := code c in
  if (48 <=? n) && (n <=? 57) then Some (n - 48)
  else if (65 <=? n) && (n <=? 70) then Some (n - 55)
  else if (97 <=? n) && (n <=? 102) then Some (n - 87)
  else None.

(** The number of leading 1 bits of an octet; 5 stands for "more than 4". *)
Definition leading_ones (B : Z) : nat :=
  if B <? 0x80 then 0
  else if B <? 0xC0 then 1
  else if B <? 0xE0 then 2
  else if B <? 0xF0 then 3
  else if B <? 0xF8 then 4
  else 5.

Definition continuation (b : Z) : bool := (0x80 <=? b) && (b <=? 0xBF).

(** "Octets contains a valid UTF-8 encoding of a Unicode code point":
    no overlong form, no surrogate, nothing above U+10FFFF. *)
Definition valid_utf8 (octets : list Z) : bool :=
  match octets with
  | [b0; b1] => (0xC2 <=? b0) && (b0 <=? 0xDF) && continuation b1
  | [b0; b1; b2] =>
      (b0 =? 0xE0) && (0xA0 <=? b1) && (b1 <=? 0xBF) && continuation b2
      || (0xE1 <=? b0) && (b0 <=? 0xEC) && continuation b1 && continuation b2
      || (b0 =? 0xED) && (0x80 <=? b1) && (b1 <=? 0x9F) && continuation b2
      || (0xEE <=? b0) && (b0 <=? 0xEF) && continuation b1 && continuation b2
  | [b0; b1; b2; b3] =>
      (b0 =? 0xF0) && (0x90 <=? b1) && (b1 <=? 0xBF)
        && continuation b2 && continuation b3
      || (0xF1 <=? b0) && (b0 <=? 0xF3) && continuation b1
        && continuation b2 && continuation b3
      || (b0 =? 0xF4) && (0x80 <=? b1) && (b1 <=? 0x8F)
        && continuation b2 && continuation b3
  | _ => false
  end.

Fixpoint chars (octets : list Z) : string :=
  match octets with
  | [] => EmptyString
  | b :: l => String (char b) (chars l)
  end.

(** Where the abstract operation [Decode] stands inside an escape. *)
Inductive phase : Type :=
| AtChar                 (* about to read a character or a "%" *)
| AfterPercent           (* "%" read, first hex digit expected *)
| AfterHex (hi : Z).     (* "%h" read, second hex digit expected *)

(** ECMAScript [Decode(string, "")], one character at a time.  [seq] is
    [Some (j, Octets)] while a multi-octet sequence misses [j] more
    escapes.  [None] is the [URIError]: a "%" without two hex digits after
    it, an octet starting with [10] or with more than four 1 bits, a
    sequence interrupted by another character or by the end of the string,
    or octets that are no valid UTF-8. *)
Fixpoint Decode (ph : phase) (seq : option (nat * list Z)) (s : string)
  : option string :=
  match s with
  | EmptyString =>
      match ph, seq with
      | AtChar, None => Some EmptyString
      | _, _ => None
      end
  | String c s' =>
      match ph with
      | AtChar =>
          if Ascii.eqb c "%" then Decode AfterPercent seq s'
          else match seq with
               | None => option_map (String c) (Decode AtChar None s')
               | Some _ => None
               end
      | AfterPercent =>
          match hex_digit c with
          | None => None
          | Some hi => Decode (AfterHex hi) seq s'
          end
      | AfterHex hi =>
          match hex_digit c with
          | None => None
          | Some lo =>
              let B := 16 * hi + lo in
              match seq with
              | None =>
                  match leading_ones B with
                  | O => option_map (String (char B)) (Decode AtChar None s')
                  | 2%nat => Decode AtChar (Some (1%nat, [B])) s'
                  | 3%nat => Decode AtChar (Some (2%nat, [B])) s'
                  | 4%nat => Decode AtChar (Some (3%nat, [B])) s'
                  | _ => None
                  end
              | Some (j, Octets) =>
                  let Octets' := (Octets ++ [B])%list in
                  match j with
                  | 1%nat =>
                      if valid_utf8 Octets'
                      then option_map (append (chars Octets'))
                                      (Decode AtChar None s')
                      else None
                  | S j' => Decode AtChar (Some (j', Octets')) s'
                  | O => None
                  end
              end
          end
      end
  end.

(** [decodeURIComponent(s)]; [None] when it throws [URIError]. *)
Definition decodeURIComponent (s : string) : option string :=
  Decode AtChar None s.

End JS.

(** ** The [Map] of ECMAScript, with string keys

    [Map.prototype.get], [set] and [delete] over the list of entries
    [[MapData]], in insertion order: [set] overwrites the value of the
    first entry with the key or appends a new entry, [delete] removes the
    first entry with the key. *)

Module JSMap.

Definition t (V : Type) : Type := list (string * V).

Definition empty {V : Type} : t V := [].

Fixpoint get {V : Type} (k : string) (m : t V) : option V :=
  match m with
  | [] => None
  | (k', v) :: m' => if String.eqb k' k then Some v else get k m'
  end.

Fixpoint set {V : Type} (k : string) (v : V) (m : t V) : t V :=
  match m with
  | [] => [(k, v)]
  | (k', v') :: m' =>
      if String.eqb k' k then (k', v) :: m' else (k', v') :: set k v m'
  end.

Fixpoint delete {V : Type} (k : string) (m : t V) : t V :=
  match m with
  | [] => []
  | (k', v') :: m' =>
      if String.eqb k' k then m' else (k', v') :: delete k m'
  end.

Definition keys {V : Type} (m : t V) : list string := map fst m.

(** The number of entries stored under a key. *)
Definition entries_for {V : Type} (k : string) (m : t V) : nat :=
  List.length (filter (fun kv => String.eqb (fst kv) k) m).

End JSMap.

(** ** The libraries the router calls

    [CID.parse] and [CID.prototype.toString] of the [multiformats] package
    and the [URL] class of the platform are not code of this repository; the
    router is verified for every implementation of them.
    - [CID_parse s] is [CID.parse(s)], [None] when it throws.
    - [CID_toString c] is [c.toString()].
    - [URL_pathname input base] is [new URL(input, base).pathname], [None]
      when the constructor throws. *)

Class Platform : Type := {
  CID : Type;
  CID_parse : string -> option CID;
  CID_toString : CID -> string;
  URL_pathname : string -> string -> option string
}.

(** ** The routing server, [createDelegatedRouterServer] *)

Module Router.

Import JS.

(** line 27 *)
Definition PROVIDER_TTL_MS : Z := 24 * 60 * 60 * 1000.

(** The record a peer announces (lines 203-207). *)
Record PeerRecord : Type := {
  ID : string;
  Addrs : list string;
  Protocols : list string
}.

(** A value of [providersByCid] (lines 110-113). *)
Record entry : Type := {
  peerRecord : PeerRecord;
  expiresAt : Z
}.

(** The variables the closures of the server share (lines 40-41). *)
Record state : Type := {
  providersByCid : JSMap.t entry;
  providerQueryCount : Z
}.

Definition initial : state :=
  {| providersByCid := JSMap.empty; providerQueryCount := 0 |}.

(** What the handler reads of the incoming request. *)
Record IncomingMessage : Type := {
  method : string;
  headers_host : option string;
  url : option string
}.

(** The value given to [JSON.stringify]: [{ Providers: [...] }] or
    [{ message: ... }]. *)
Inductive payload : Type :=
| Providers (l : list PeerRecord)
| message (m : string).

(** [res.writeHead(statusCode, { "Content-Type": ... })] and [res.end]. *)
Record response : Type := {
  statusCode : Z;
  contentType : string;
  body : payload
}.

Definition json (status : Z) (p : payload) : response :=
  {| statusCode := status; contentType := "application/json"; body := p |}.

(** The template literal of line 44: an absent header prints as
    [undefined]. *)
Definition baseUrl (req : IncomingMessage) : string :=
  "http://" ++ match headers_host req with
               | Some h => h
               | None => "undefined"
               end.

(** [req.url ?? "/"] *)
Definition url_or_root (req : IncomingMessage) : string :=
  match url req with
  | Some u => u
  | None => "/"
  end.

Definition providers_route : string := "/routing/v1/providers/".

Definition bump (s : state) : state :=
  {| providersByCid := providersByCid s;
     providerQueryCount := providerQueryCount s + 1 |}.

Definition with_providers (s : state) (m : JSMap.t entry) : state :=
  {| providersByCid := m; providerQueryCount := providerQueryCount s |}.

Section WithPlatform.

Context {P : Platform}.

(** The request listener, lines 43-84.  [now_check] is the value of
    [Date.now()] at line 65, [now_evict] its value at line 66. *)
Definition handler (req : IncomingMessage) (now_check now_evict : Z)
           (s : state) : completion response * state :=
  match URL_pathname (url_or_root req) (baseUrl req) with
  | None => (Throw TypeError, s)
  | Some pathname =>
      if String.eqb (method req) "GET"
         && startsWith pathname providers_route
      then
        let s := bump s in
        let cidPart := slice pathname (String.length providers_route) in
        match decodeURIComponent cidPart with
        | None => (Throw URIError, s)
        | Some requestedCid =>
            match CID_parse requestedCid with
            | None => (Normal (json 422 (Providers [])), s)
            | Some c =>
                let normalizedCid := CID_toString c in
                match JSMap.get normalizedCid (providersByCid s) with
                | None => (Normal (json 404 (Providers [])), s)
                | Some e =>
                    if expiresAt e <=? now_check then
                      (Normal (json 404 (Providers [])),
                       if expiresAt e <=? now_evict
                       then with_providers s
                              (JSMap.delete normalizedCid (providersByCid s))
                       else s)
                    else
                      (Normal (json 200 (Providers [peerRecord e])), s)
                end
            end
        end
      else (Normal (json 404 (message "not found")), s)
  end.

(** [getProviderQueryCount], lines 105-107 *)
Definition getProviderQueryCount (s : state) : Z := providerQueryCount s.

(** The key [announceProvider] and the handler compute from a string:
    [CID.parse(s).toString()]. *)
Definition normalize (s : string) : option string :=
  option_map CID_toString (CID_parse s).

(** [announceProvider], lines 108-114; [now] is [Date.now()]. *)
Definition announceProvider (contentCid : CID) (peerRecord : PeerRecord)
           (now : Z) (s : state) : completion unit * state :=
  match CID_parse (CID_toString contentCid) with
  | None => (Throw Error, s)
  | Some c =>
      let normalizedCid := CID_toString c in
      (Normal tt,
       with_providers s
         (JSMap.set normalizedCid
            {| peerRecord := peerRecord;
               expiresAt := now + PROVIDER_TTL_MS |}
            (providersByCid s)))
  end.

(** The directory lookup the handler performs at lines 64-73 on a
    normalised key: the record to serve, if any, and the map it leaves. *)
Definition lookup (normalizedCid : string) (now_check now_evict : Z)
           (m : JSMap.t entry) : option PeerRecord * JSMap.t entry :=
  match JSMap.get normalizedCid m with
  | None => (None, m)
  | Some e =>
      if expiresAt e <=? now_check then
        (None,
         if expiresAt e <=? now_evict
         then JSMap.delete normalizedCid m
         else m)
      else (Some (peerRecord e), m)
  end.

(** What the two closures can do to the shared variables. *)
Inductive step : state -> state -> Prop :=
| step_request (req : IncomingMessage) (now_check now_evict : Z) (s : state) :
    step s (snd (handler req now_check now_evict s))
| step_announce (c : CID) (r : PeerRecord) (now : Z) (s : state) :
    step s (snd (announceProvider c r now s)).

Inductive reachable : state -> Prop :=
| reachable_initial : reachable initial
| reachable_step (s s' : state) :
    reachable s -> step s s' -> reachable s'.

(** Serving a list of requests in order, each with its two clock
    readings. *)
Fixpoint serve (reqs : list (IncomingMessage * Z * Z)) (s : state) : state :=
  match reqs with
  | [] => s
  | (req, now_check, now_evict) :: reqs' =>
      serve reqs' (snd (handler req now_check now_evict s))
  end.

(** The string form of a parsed identifier: what a key of the directory
    is made of. *)
Definition canonical (k : string) : Prop :=
  exists (source : string) (c : CID),
    CID_parse source = Some c /\ k = CID_toString c.


(** The test of lines 47-50 on the parsed request: a provider lookup. *)
Definition is_provider_lookup (req : IncomingMessage) : bool :=
  match URL_pathname (url_or_root req) (baseUrl req) with
  | None => false
  | Some pathname =>
      String.eqb (method req) "GET" && startsWith pathname providers_route
  end.

(** The key of [providersByCid] a request reads (lines 52-57 and 64),
    when it gets that far. *)
Definition requested_key (req : IncomingMessage) : option string :=
  match URL_pathname (url_or_root req) (baseUrl req) with
  | None => None
  | Some pathname =>
      if String.eqb (method req) "GET"
         && startsWith pathname providers_route
      then
        match decodeURIComponent
                (slice pathname (String.length providers_route)) with
        | None => None
        | Some requestedCid => normalize requestedCid
        end
      else None
  end.

End WithPlatform.

(** The options of [createDelegatedRouterServer] (line 39) and the state
    its closures start from (lines 40-41). *)
Record options : Type := { port : Z }.

Definition createDelegatedRouterServer (opts : options) : state := initial.

(** A small implementation of the libraries, to run the router on
    examples: identifiers are their own strings, the strings that start
    with the multibase prefix of base32 parse, and a request target is the
    path as it stands. *)
Definition example_platform : Platform :=
  {| CID := string;
     CID_parse := fun s => if String.prefix "b" s then Some s else None;
     CID_toString := fun c => c;
     URL_pathname := fun input _ => Some input |}.

Definition GET (target : string) : IncomingMessage :=
  {| method := "GET";
     headers_host := Some "127.0.0.1:25150";
     url := Some target |}.

(** The identifier the program derives from its default topic. *)
Definition example_cid : string :=
  "bafkreia36n7k4rrs2wndyn4enw7ttsfajplrrdczaktuvvrebtpmcf6rwa".

(** The identifier of the empty block, never announced. *)
Definition other_cid : string :=
  "bafkreihdwdcefgh4dqkjv67uzcmw7ojee6xedzdetojuzjevtenxquvyku".

Definition peerA : PeerRecord :=
  {| ID := "peerA"; Addrs := ["/ip4/127.0.0.1/tcp/4001"]; Protocols := [] |}.

Definition peerB : PeerRecord :=
  {| ID := "peerB"; Addrs := ["/ip4/127.0.0.1/tcp/4002"]; Protocols := [] |}.

(** The state after [peerA] was announced at time 0 on a fresh server, and
    the entry it holds. *)
Definition announced : state :=
  snd (announceProvider (P := example_platform) example_cid peerA 0 initial).

Definition stored : entry :=
  {| peerRecord := peerA; expiresAt := 86400000 |}.

End Router.

(** ** SHA-256

    Modelled from the spec: [sha256.array] of the package [js-sha256], which
    is not part of the repository.  Step 3 of section 4.1 names what it
    computes, the SHA-256 hash of the bytes; this is the function of FIPS
    180-4.  Words are 32-bit, kept in [Z] below [2^32]. *)

Module SHA256.

Definition mask32 (x : Z) : Z := Z.land x 0xFFFFFFFF.
Definition add32 (x y : Z) : Z := mask32 (x + y).
Definition rotr (n x : Z) : Z :=
  Z.lor (Z.shiftr x n) (mask32 (Z.shiftl x (32 - n))).
Definition xor3 (x y z : Z) : Z := Z.lxor x (Z.lxor y z).

Definition Ch (x y z : Z) : Z :=
  Z.lxor (Z.land x y) (Z.land (mask32 (Z.lnot x)) z).
Definition Maj (x y z : Z) : Z :=
  xor3 (Z.land x y) (Z.land x z) (Z.land y z).
Definition Sigma0 (x : Z) : Z := xor3 (rotr 2 x) (rotr 13 x) (rotr 22 x).
Definition Sigma1 (x : Z) : Z := xor3 (rotr 6 x) (rotr 11 x) (rotr 25 x).
Definition sigma0 (x : Z) : Z := xor3 (rotr 7 x) (rotr 18 x) (Z.shiftr x 3).
Definition sigma1 (x : Z) : Z := xor3 (rotr 17 x) (rotr 19 x) (Z.shiftr x 10).

(** The integer cube root, one bit at a time from the top. *)
Fixpoint cube_root_go (bit : nat) (n r : Z) : Z :=
  match bit with
  | O => r
  | S bit' =>
      let r' := r + 2 ^ Z.of_nat bit' in
      cube_root_go bit' n (if r' * r' * r' <=? n then r' else r)
  end.

Definition cube_root (n : Z) : Z := cube_root_go 40 n 0.

Definition is_prime (p : nat) : bool :=
  forallb (fun d => negb (Nat.eqb (Nat.modulo p d) 0)) (seq 2 (p - 2)).

(** The first sixty-four primes, 2 to 311. *)
Definition primes : list Z := map Z.of_nat (filter is_prime (seq 2 310)).

(** The first 32 bits of the fractional part of a square and of a cube
    root. *)
Definition frac_sqrt (p : Z) : Z := mask32 (Z.sqrt (p * 2 ^ 64)).
Definition frac_cbrt (p : Z) : Z := mask32 (cube_root (p * 2 ^ 96)).

(** The round constants: from the cube roots of the primes. *)
Definition K : list Z := map frac_cbrt primes.

(** The eight working variables, and the hash value between blocks. *)
Record regs : Type := {
  ra : Z; rb : Z; rc : Z; rd : Z; re : Z; rf : Z; rg : Z; rh : Z
}.

(** The initial hash value: from the square roots of the first eight
    primes. *)
Definition H0 : regs :=
  {| ra := frac_sqrt 2; rb := frac_sqrt 3; rc := frac_sqrt 5;
     rd := frac_sqrt 7; re := frac_sqrt 11; rf := frac_sqrt 13;
     rg := frac_sqrt 17; rh := frac_sqrt 19 |}.

(** Padding: a 1 bit, zeros up to 56 modulo 64, the bit length on 8 bytes. *)
Definition be_bytes (n : nat) (x : Z) : list Z :=
  map (fun i => Z.land (Z.shiftr x (8 * Z.of_nat i)) 0xFF) (rev (seq 0 n)).

Definition pad (msg : list Z) : list Z :=
  let len := Z.of_nat (List.length msg) in
  (msg ++ [0x80] ++ repeat 0 (Z.to_nat ((55 - len) mod 64))
       ++ be_bytes 8 (8 * len))%list.

Fixpoint words (n : nat) (l : list Z) : list Z :=
  match n, l with
  | S n', b0 :: b1 :: b2 :: b3 :: l' =>
      (Z.shiftl b0 24 + Z.shiftl b1 16 + Z.shiftl b2 8 + b3) :: words n' l'
  | _, _ => []
  end.

(** The message schedule, newest word first: [r] holds W(t-1), W(t-2), ... *)
Fixpoint schedule (n : nat) (r : list Z) : list Z :=
  match n with
  | O => r
  | S n' =>
      let w := add32 (add32 (sigma1 (nth 1 r 0)) (nth 6 r 0))
                     (add32 (sigma0 (nth 14 r 0)) (nth 15 r 0)) in
      schedule n' (w :: r)
  end.

Definition round (v : regs) (kw : Z * Z) : regs :=
  let T1 := add32 (add32 (add32 (rh v) (Sigma1 (re v)))
                         (add32 (Ch (re v) (rf v) (rg v)) (fst kw)))
                  (snd kw) in
  let T2 := add32 (Sigma0 (ra v)) (Maj (ra v) (rb v) (rc v)) in
  {| ra := add32 T1 T2; rb := ra v; rc := rb v; rd := rc v;
     re := add32 (rd v) T1; rf := re v; rg := rf v; rh := rg v |}.

Definition compress (H : regs) (block : list Z) : regs :=
  let W := rev (schedule 48 (rev (words 16 block))) in
  let v := fold_left round (combine K W) H in
  {| ra := add32 (ra H) (ra v); rb := add32 (rb H) (rb v);
     rc := add32 (rc H) (rc v); rd := add32 (rd H) (rd v);
     re := add32 (re H) (re v); rf := add32 (rf H) (rf v);
     rg := add32 (rg H) (rg v); rh := add32 (rh H) (rh v) |}.

Fixpoint blocks (n : nat) (H : regs) (l : list Z) : regs :=
  match n with
  | O => H
  | S n' => blocks n' (compress H (firstn 64 l)) (skipn 64 l)
  end.

Definition digest_bytes (H : regs) : list Z :=
  flat_map (be_bytes 4)
           [ra H; rb H; rc H; rd H; re H; rf H; rg H; rh H].

(** Modelled from the spec: [sha256.array(bytes)] of [js-sha256], the
    SHA-256 hash of step 3 of section 4.1. *)
Definition array (bytes : list Z) : list Z :=
  let p := pad bytes in
  digest_bytes (blocks (List.length p / 64)%nat H0 p).

End SHA256.

(** ** The identifier constructors

    Modelled from the spec: [Digest.create], [CID.create] and the default
    [toString] of the package [multiformats], which is not part of the
    repository.  Steps 4 to 6 of section 4.1 and the glossary name what they
    build: a digest is the code of the hash function and the hash output, an
    identifier is a version and a content type around the digest, and its
    string form is its canonical serialisation.  The layouts are those of
    the multihash, CID and multibase formats: unsigned varints, base32
    (lower case, no padding) behind the prefix [b] for version 1, bare
    base58btc for version 0.  The identifiers here are built, not parsed. *)

Module Multiformats.

(** [varint.encode] of a number below [2^53]: 7 bits per byte, least
    significant group first, the high bit set on all bytes but the last. *)
Fixpoint varint_go (fuel : nat) (n : Z) : list Z :=
  match fuel with
  | O => [n]
  | S fuel' =>
      if n <? 128 then [n]
      else (128 + n mod 128) :: varint_go fuel' (n / 128)
  end.

Definition varint (n : Z) : list Z := varint_go 8 n.

Record Digest : Type := {
  digest_code : Z;
  digest_size : Z;
  digest_digest : list Z;
  digest_bytes : list Z
}.

(** Modelled from the spec: [Digest.create(code, digest)] of
    [multiformats], the digest of step 4 of section 4.1: the code of the
    hash function, the size of the hash and the hash. *)
Definition Digest_create (code : Z) (digest : list Z) : Digest :=
  let size := Z.of_nat (List.length digest) in
  {| digest_code := code;
     digest_size := size;
     digest_digest := digest;
     digest_bytes := (varint code ++ varint size ++ digest)%list |}.

Record CID : Type := {
  cid_version : Z;
  cid_code : Z;
  cid_multihash : Digest;
  cid_bytes : list Z
}.

Definition DAG_PB_CODE : Z := 0x70.

(** Modelled from the spec: [CID.create(version, code, digest)] of
    [multiformats], the identifier of step 5 of section 4.1; [None] when it
    throws: version 0 takes the content type 0x70 only, and there is no
    version but 0 and 1. *)
Definition CID_create (version code : Z) (digest : Digest) : option CID :=
  if version =? 0 then
    if code =? DAG_PB_CODE
    then Some {| cid_version := version; cid_code := code;
                 cid_multihash := digest; cid_bytes := digest_bytes digest |}
    else None
  else if version =? 1 then
    Some {| cid_version := version; cid_code := code;
            cid_multihash := digest;
            cid_bytes := (varint version ++ varint code
                                 ++ digest_bytes digest)%list |}
  else None.

(** *** Text over an alphabet *)

Definition alphabet_get (alphabet : string) (i : Z) : ascii :=
  match String.get (Z.to_nat i) alphabet with
  | Some c => c
  | None => Ascii.zero
  end.

Fixpoint index_of (c : ascii) (alphabet : string) : option Z :=
  match alphabet with
  | EmptyString => None
  | String a rest =>
      if Ascii.eqb a c then Some 0 else option_map Z.succ (index_of c rest)
  end.

Fixpoint text (alphabet : string) (ds : list Z) : string :=
  match ds with
  | [] => EmptyString
  | d :: ds' => String (alphabet_get alphabet d) (text alphabet ds')
  end.

(** The digits a text stands for; [None] at a character that is not in the
    alphabet. *)
Fixpoint indices (alphabet : string) (s : string) : option (list Z) :=
  match s with
  | EmptyString => Some []
  | String c s' =>
      match index_of c alphabet, indices alphabet s' with
      | Some d, Some ds => Some (d :: ds)
      | _, _ => None
      end
  end.

(** An alphabet in which every digit is found again at its own place. *)
Definition alphabet_ok (alphabet : string) : Prop :=
  forall d, 0 <= d < Z.of_nat (String.length alphabet) ->
            index_of (alphabet_get alphabet d) alphabet = Some d.

Definition index_check (alphabet : string) (d : Z) : bool :=
  match index_of (alphabet_get alphabet d) alphabet with
  | Some d' => d' =? d
  | None => false
  end.

(** *** Base32 (RFC 4648, lower case, no padding)

    The bits of the bytes, most significant first, are cut in groups of 5,
    the last group filled with zeros. *)

Definition base32_alphabet : string := "abcdefghijklmnopqrstuvwxyz234567".

Definition bits8 (b : Z) : list bool :=
  [Z.testbit b 7; Z.testbit b 6; Z.testbit b 5; Z.testbit b 4;
   Z.testbit b 3; Z.testbit b 2; Z.testbit b 1; Z.testbit b 0].

Definition bits5 (v : Z) : list bool :=
  [Z.testbit v 4; Z.testbit v 3; Z.testbit v 2; Z.testbit v 1; Z.testbit v 0].

Fixpoint of_bits (acc : Z) (l : list bool) : Z :=
  match l with
  | [] => acc
  | b :: l' => of_bits (2 * acc + Z.b2z b) l'
  end.

Fixpoint groups5 (l : list bool) : list Z :=
  match l with
  | [] => []
  | b0 :: b1 :: b2 :: b3 :: b4 :: l' =>
      of_bits 0 [b0; b1; b2; b3; b4] :: groups5 l'
  | _ => [of_bits 0 (firstn 5 (l ++ [false; false; false; false]))]
  end.

(** The bytes of a list of bits: 8 bits a byte; what is left must be fewer
    than 5 bits, all zero. *)
Fixpoint bytes8 (l : list bool) : option (list Z) :=
  match l with
  | b0 :: b1 :: b2 :: b3 :: b4 :: b5 :: b6 :: b7 :: l' =>
      option_map (cons (of_bits 0 [b0; b1; b2; b3; b4; b5; b6; b7]))
                 (bytes8 l')
  | _ => if (List.length l <? 5)%nat && forallb negb l then Some [] else None
  end.

(** [base32.encode(bytes)], with its multibase prefix [b]. *)
Definition base32_encode (bytes : list Z) : string :=
  String "b" (text base32_alphabet (groups5 (flat_map bits8 bytes))).

(** The bytes of a base32 text without its prefix. *)
Definition base32_decode (s : string) : option (list Z) :=
  match indices base32_alphabet s with
  | Some vs => bytes8 (flat_map bits5 vs)
  | None => None
  end.

(** *** Base58btc and base36: a number written in another base, the
    leading zeros kept one for one *)

Definition base58_alphabet : string :=
  "123456789ABCDEFGHJKLMNPQRSTUVWXYZabcdefghijkmnopqrstuvwxyz".

Definition base36_alphabet : string := "0123456789abcdefghijklmnopqrstuvwxyz".

(** Digits least significant first. *)
Fixpoint value_le (base : Z) (ds : list Z) : Z :=
  match ds with
  | [] => 0
  | d :: ds' => d + base * value_le base ds'
  end.

Fixpoint digits_le (base : Z) (fuel : nat) (n : Z) : list Z :=
  match fuel with
  | O => []
  | S fuel' =>
      if n <=? 0 then []
      else n mod base :: digits_le base fuel' (n / base)
  end.

Definition digit (base : Z) (d : Z) : Prop := 0 <= d < base.

(** Least significant first: the digits in range, the last one not zero. *)
Fixpoint canon (base : Z) (ds : list Z) : Prop :=
  match ds with
  | [] => True
  | [d] => 0 < d < base
  | d :: ds' => digit base d /\ canon base ds'
  end.

(** Most significant first: no leading zero. *)
Definition headed (r : list Z) : Prop :=
  match r with
  | [] => True
  | h :: _ => h <> 0
  end.

(** Digits most significant first; a number has at most as many digits as
    bits. *)
Definition value (base : Z) (ds : list Z) : Z := value_le base (rev ds).

Definition digits (base : Z) (n : Z) : list Z :=
  rev (digits_le base (Z.to_nat (Z.succ (Z.log2 n))) n).

Fixpoint strip_zeros (ds : list Z) : nat * list Z :=
  match ds with
  | 0 :: ds' => let (z, r) := strip_zeros ds' in (S z, r)
  | _ => (O, ds)
  end.

Definition rebase (from to : Z) (ds : list Z) : list Z :=
  let (z, r) := strip_zeros ds in
  (repeat 0 z ++ digits to (value from r))%list.

(** [base58btc.encode(bytes).slice(1)]: the text without the multibase
    prefix [z]. *)
Definition base58btc_digits (bytes : list Z) : string :=
  text base58_alphabet (rebase 256 58 bytes).

Definition basex_decode (alphabet : string) (s : string) : option (list Z) :=
  option_map (rebase (Z.of_nat (String.length alphabet)) 256)
             (indices alphabet s).

(** Modelled from the spec: [cid.toString()] of [multiformats] with the
    default base, the canonical serialisation of step 6 of section 4.1. *)
Definition CID_toString (c : CID) : string :=
  if cid_version c =? 0 then base58btc_digits (cid_bytes c)
  else base32_encode (cid_bytes c).

(** *** Parsing

    Modelled from the spec: [CID.parse] of the package [multiformats], which
    is not part of the repository.  Section 3 asks for a parser of
    arbitrary strings that fails on malformed input; the strings that parse
    are those of the CID format: bare base58btc for version 0, a multibase
    prefix ([b] base32, [z] base58btc, [k] base36) before the bytes of
    version 1. *)

(** [varint.decode]: at most 8 bytes. *)
Fixpoint varint_decode_go (bytes : list Z) (shift acc : Z)
  : option (Z * list Z) :=
  match bytes with
  | [] => None
  | b :: rest =>
      if 49 <? shift then None
      else
        let acc' := acc + (b mod 128) * 2 ^ shift in
        if b <? 128 then Some (acc', rest)
        else varint_decode_go rest (shift + 7) acc'
  end.

Definition varint_decode (bytes : list Z) : option (Z * list Z) :=
  varint_decode_go bytes 0 0.

(** A multihash: code, size, and exactly [size] bytes. *)
Definition multihash_decode (bytes : list Z) : option Digest :=
  match varint_decode bytes with
  | None => None
  | Some (code, r1) =>
      match varint_decode r1 with
      | None => None
      | Some (size, payload) =>
          if Z.of_nat (List.length payload) =? size
          then Some (Digest_create code payload)
          else None
      end
  end.

(** [CID.decode(bytes)]: bytes that start with 18 are a bare multihash, an
    identifier of version 0; the others carry their version and content
    type. *)
Definition CID_decode (bytes : list Z) : option CID :=
  match varint_decode bytes with
  | None => None
  | Some (version, r1) =>
      if version =? 18 then
        match multihash_decode bytes with
        | Some digest => CID_create 0 DAG_PB_CODE digest
        | None => None
        end
      else
        match varint_decode r1 with
        | None => None
        | Some (codec, r2) =>
            match multihash_decode r2 with
            | Some digest =>
                if version =? 0 then CID_create 0 DAG_PB_CODE digest
                else CID_create version codec digest
            | None => None
            end
        end
  end.

(** An identifier of version 0 has no multibase prefix. *)
Definition prefixed (bytes : option (list Z)) : option CID :=
  match bytes with
  | None => None
  | Some bytes =>
      match CID_decode bytes with
      | Some c => if cid_version c =? 0 then None else Some c
      | None => None
      end
  end.

(** Modelled from the spec: [CID.parse(source)] of [multiformats], the
    parser of section 3; [None] when it throws. *)
Definition CID_parse (source : string) : option CID :=
  match source with
  | EmptyString => None
  | String c rest =>
      if Ascii.eqb c "Q" then
        match basex_decode base58_alphabet source with
        | Some bytes => CID_decode bytes
        | None => None
        end
      else if Ascii.eqb c "z" then prefixed (basex_decode base58_alphabet rest)
      else if Ascii.eqb c "b" then prefixed (base32_decode rest)
      else if Ascii.eqb c "k" then prefixed (basex_decode base36_alphabet rest)
      else None
  end.

(** The identifiers the constructors build from bytes and from codes in
    the range of exact numbers; an identifier of version 0 carries a
    SHA-256 digest. *)
Definition byte (b : Z) : Prop := 0 <= b < 256.

Definition well_formed (c : CID) : Prop :=
  exists (version code hash_code : Z) (payload : list Z),
    CID_create version code (Digest_create hash_code payload) = Some c
    /\ 0 <= code < 2 ^ 53
    /\ 0 <= hash_code < 2 ^ 53
    /\ Z.of_nat (List.length payload) < 2 ^ 53
    /\ Forall byte payload
    /\ (version = 0 -> hash_code = 0x12 /\ List.length payload = 32%nat).

(** A valid canonical identifier string: the string form of a well-formed
    identifier. *)
Definition canonical_string (s : string) : Prop :=
  exists c : CID, well_formed c /\ s = CID_toString c.

End Multiformats.

(** ** Key derivation, [pubsubTopicToDhtKeyCid] *)

Module KeyDerivation.

Import Multiformats.

(** [new TextEncoder().encode(s)] *)
Definition TextEncoder_encode (s : string) : list Z :=
  map JS.code (list_ascii_of_string s).

(** line 29 *)
Definition DEFAULT_PUBSUB_TOPIC : string := "/plebbit/pubsub-repro/1".

(** lines 31-37; [None] when [CID.create] throws. *)
Definition pubsubTopicToDhtKeyCid (pubsubTopic : string) : option CID :=
  let stringToHash := "floodsub:" ++ pubsubTopic in
  let bytes := TextEncoder_encode stringToHash in
  let hashBytes := SHA256.array bytes in
  let digest := Digest_create 0x12 hashBytes in
  CID_create 1 0x55 digest.

(** The string form of the derived identifier, as line 212 prints it and
    as [announceProvider] reads it. *)
Definition derive (topic : string) : option string :=
  option_map CID_toString (pubsubTopicToDhtKeyCid topic).

(** The derivation in the words of the specification, section 4.1, steps
    1 to 6: the identifier of version 1 and content type 0x55 around the
    digest tagged 0x12 that carries the 32 bytes of the SHA-256 hash. *)
Definition spec_digest (hash : list Z) : Digest :=
  {| digest_code := 0x12;
     digest_size := 32;
     digest_digest := hash;
     digest_bytes := (0x12 :: 32 :: hash)%list |}.

Definition spec_identifier (hash : list Z) : CID :=
  {| cid_version := 1;
     cid_code := 0x55;
     cid_multihash := spec_digest hash;
     cid_bytes := (1 :: 0x55 :: 0x12 :: 32 :: hash)%list |}.

(** Steps 1 and 2 in the words of the specification, written without the
    encoder of the source: the UTF-8 bytes of a string are the bytes of its
    characters, and the bytes hashed are those of "floodsub:", 66 6c 6f 6f
    64 73 75 62 3a, followed by those of the topic. *)
Definition utf8 (s : string) : list Z :=
  map (fun b => Z.of_N (Byte.to_N b)) (list_byte_of_string s).

Definition floodsub_prefix : list Z :=
  [0x66; 0x6c; 0x6f; 0x6f; 0x64; 0x73; 0x75; 0x62; 0x3a].

Definition hashed_message (topic : string) : list Z :=
  (floodsub_prefix ++ utf8 topic)%list.

Definition spec_derive (topic : string) : string :=
  CID_toString (spec_identifier (SHA256.array (hashed_message topic))).

End KeyDerivation.

(** ** The router on the modelled identifiers *)

Definition multiformats_platform (URL : string -> string -> option string)
  : Platform :=
  {| CID := Multiformats.CID;
     CID_parse := Multiformats.CID_parse;
     CID_toString := Multiformats.CID_toString;
     URL_pathname := URL |}.

(** ** Traffic: the provider lookups among the requests served *)

Module Traffic.

Import Router.


(** A request target on the providers route. *)
Definition providers_path (segment : string) : string :=
  providers_route ++ segment.

(** No percent sign in a string. *)
Fixpoint plain (s : string) : Prop :=
  match s with
  | EmptyString => True
  | String c s' => c <> "%"%char /\ plain s'
  end.

End Traffic.

(** ** The routing clients of the resolver, [getDelegatedRoutingFields],
    and the services of [createPlebbitLikeHelia]

    An object is the map of its properties, in insertion order.  The client
    of the package [@helia/delegated-routing-v1-http-api-client] is not code
    of this repository: its function values [Method] and its constructor
    are parameters. *)

Module DelegatedRouting.

Import JS.

(** The text of a loop index in a template literal. *)
Definition index_text (i : nat) : string :=
  DecimalString.NilEmpty.string_of_uint (Nat.to_uint i).

(** The key of line 134. *)
Definition field_name (i : nat) : string := "delegatedRouting" ++ index_text i.

Section WithClient.

Variable Method : Type.

(** A property value of a client: [undefined], a function of the library,
    or the generator of lines 124-127, which logs and then yields what the
    bound original yields. *)
Inductive value : Type :=
| undefined
| method (m : Method)
| logged (original : value).

Definition object : Type := JSMap.t value.

(** The constructor of the library, line 121.  It can throw: it does for a
    router that is no URL. *)
Variable createDelegatedRoutingV1HttpApiClient : string -> completion object.

(** [f.bind(thisArg)] where [f] was read from a property: a [TypeError]
    when the property is missing or [undefined]. *)
Definition bind (f : option value) : completion value :=
  match f with
  | Some (method m) => Normal (method m)
  | Some (logged original) => Normal (logged original)
  | Some undefined => Throw TypeError
  | None => Throw TypeError
  end.

(** The body of the loop, lines 121-132: the client of one router. *)
Definition routingClient (router : string) : completion object :=
  match createDelegatedRoutingV1HttpApiClient router with
  | Throw e => Throw e
  | Normal routingClient =>
      match bind (JSMap.get "getProviders" routingClient) with
      | Throw e => Throw e
      | Normal originalGetProviders =>
          Normal
            (JSMap.set "putIPNS" undefined
               (JSMap.set "getPeers" undefined
                  (JSMap.set "getIPNS" undefined
                     (JSMap.set "getProviders" (logged originalGetProviders)
                        routingClient))))
      end
  end.

(** The loop of lines 120-135 from index [i] on.  The function stored at
    line 134 returns the client; the client stands for it. *)
Fixpoint fields_from (i : nat) (routers : list string)
         (routersObj : JSMap.t object) : completion (JSMap.t object) :=
  match routers with
  | [] => Normal routersObj
  | router :: routers' =>
      match routingClient router with
      | Throw e => Throw e
      | Normal client =>
          fields_from (S i) routers'
                      (JSMap.set (field_name i) client routersObj)
      end
  end.

(** lines 118-137 *)
Definition getDelegatedRoutingFields (routers : list string)
  : completion (JSMap.t object) :=
  fields_from 0 routers JSMap.empty.

(** A value of the [services] object: what [identify()], [gossipsub()] and
    [libp2pFetch()] return, or a routing field. *)
Inductive service : Type :=
| identify
| gossipsub
| libp2pFetch
| delegatedRouting (client : object).

(** [Object.assign(target, source)] *)
Definition Object_assign {V : Type} (target source : JSMap.t V) : JSMap.t V :=
  fold_left (fun t kv => JSMap.set (fst kv) (snd kv) t) source target.

(** The [services] of [createPlebbitLikeHelia], lines 140-148;
    [delegatedRouters] is [None] when the option is absent. *)
Definition services (delegatedRouters : option (list string))
  : completion (JSMap.t service) :=
  let services :=
    [("identify", identify); ("pubsub", gossipsub); ("fetch", libp2pFetch)] in
  match delegatedRouters with
  | Some (router :: routers) =>
      match getDelegatedRoutingFields (router :: routers) with
      | Throw e => Throw e
      | Normal fields =>
          Normal (Object_assign services
                    (map (fun kv => (fst kv, delegatedRouting (snd kv)))
                         fields))
      end
  | Some [] => Normal services
  | None => Normal services
  end.

End WithClient.

Arguments undefined {Method}.
Arguments method {Method} m.
Arguments logged {Method} original.
Arguments identify {Method}.
Arguments gossipsub {Method}.
Arguments libp2pFetch {Method}.
Arguments delegatedRouting {Method} client.

(** A client library for examples: a router that begins with "http://" gets
    a client with the four methods, each named after the router and the
    method; for any other router the constructor throws. *)
Definition example_client (router : string) : completion (object string) :=
  if startsWith router "http://"
  then Normal [("getProviders", method (router ++ "#getProviders"));
               ("getIPNS", method (router ++ "#getIPNS"));
               ("getPeers", method (router ++ "#getPeers"));
               ("putIPNS", method (router ++ "#putIPNS"))]
  else Throw TypeError.

End DelegatedRouting.

(** * Properties *)

(** ** The map operations *)

Section MapFacts.

Variable V : Type.
Implicit Types (m : JSMap.t V) (k : string) (v : V).

Lemma get_set_same m k v : JSMap.get k (JSMap.set k v m) = Some v.
Proof.
  induction m as [|[k' v'] m IH]; simpl.
  - now rewrite String.eqb_refl.
  - destruct (String.eqb k' k) eqn:E; simpl; rewrite E; auto.
Qed.

Lemma get_set_other m k k' v :
  k' <> k -> JSMap.get k' (JSMap.set k v m) = JSMap.get k' m.
Proof.
  intros Hne. induction m as [|[k0 v0] m IH]; simpl.
  - destruct (String.eqb_spec k k'); congruence.
  - destruct (String.eqb_spec k0 k) as [->|Hk]; simpl.
    + destruct (String.eqb_spec k k'); congruence.
    + now rewrite IH.
Qed.

Lemma get_delete_other m k k' :
  k' <> k -> JSMap.get k' (JSMap.delete k m) = JSMap.get k' m.
Proof.
  intros Hne. induction m as [|[k0 v0] m IH]; simpl; auto.
  destruct (String.eqb_spec k0 k) as [->|Hk]; simpl.
  - destruct (String.eqb_spec k k'); congruence.
  - now rewrite IH.
Qed.

Lemma get_None_iff m k : JSMap.get k m = None <-> ~ In k (JSMap.keys m).
Proof.
  induction m as [|[k0 v0] m IH]; simpl.
  - tauto.
  - destruct (String.eqb_spec k0 k) as [->|Hk].
    + split; [discriminate | tauto].
    + rewrite IH. tauto.
Qed.

Lemma keys_set m k v k' :
  In k' (JSMap.keys (JSMap.set k v m)) <-> k' = k \/ In k' (JSMap.keys m).
Proof.
  induction m as [|[k0 v0] m IH]; simpl.
  - intuition congruence.
  - destruct (String.eqb_spec k0 k) as [->|Hk]; simpl.
    + intuition congruence.
    + rewrite IH. tauto.
Qed.

Lemma keys_set_present m k v :
  In k (JSMap.keys m) -> JSMap.keys (JSMap.set k v m) = JSMap.keys m.
Proof.
  induction m as [|[k0 v0] m IH]; simpl; [tauto|].
  intros Hin. destruct (String.eqb_spec k0 k) as [->|Hk]; simpl.
  - reflexivity.
  - f_equal. apply IH. tauto.
Qed.

Lemma keys_delete m k k' :
  In k' (JSMap.keys (JSMap.delete k m)) -> In k' (JSMap.keys m).
Proof.
  induction m as [|[k0 v0] m IH]; simpl; auto.
  destruct (String.eqb_spec k0 k) as [->|Hk]; simpl; tauto.
Qed.

Lemma NoDup_set m k v :
  NoDup (JSMap.keys m) -> NoDup (JSMap.keys (JSMap.set k v m)).
Proof.
  induction m as [|[k0 v0] m IH]; simpl; intros Hnd.
  - constructor; [tauto | constructor].
  - inversion Hnd as [|? ? Hnotin Hnd']; subst.
    destruct (String.eqb_spec k0 k) as [->|Hk]; simpl.
    + now constructor.
    + constructor; [|now apply IH].
      fold (JSMap.keys (JSMap.set k v m)). rewrite keys_set.
      intros [->|Hin]; tauto.
Qed.

Lemma NoDup_delete m k :
  NoDup (JSMap.keys m) -> NoDup (JSMap.keys (JSMap.delete k m)).
Proof.
  induction m as [|[k0 v0] m IH]; simpl; intros Hnd; auto.
  inversion Hnd as [|? ? Hnotin Hnd']; subst.
  destruct (String.eqb_spec k0 k) as [->|Hk]; simpl; auto.
  constructor; [|now apply IH].
  intros Hin. apply Hnotin. eapply keys_delete. exact Hin.
Qed.

Lemma get_delete_same m k :
  NoDup (JSMap.keys m) -> JSMap.get k (JSMap.delete k m) = None.
Proof.
  induction m as [|[k0 v0] m IH]; simpl; intros Hnd; auto.
  inversion Hnd as [|? ? Hnotin Hnd']; subst.
  destruct (String.eqb_spec k0 k) as [->|Hk]; simpl.
  - now apply get_None_iff.
  - destruct (String.eqb_spec k0 k); [congruence | now apply IH].
Qed.

Lemma get_delete_None m k k' :
  JSMap.get k' m = None -> JSMap.get k' (JSMap.delete k m) = None.
Proof.
  rewrite !get_None_iff. intros Hnotin Hin. apply Hnotin.
  eapply keys_delete. exact Hin.
Qed.

Lemma entries_for_absent m k :
  ~ In k (JSMap.keys m) -> JSMap.entries_for k m = 0%nat.
Proof.
  unfold JSMap.entries_for.
  induction m as [|[k0 v0] m IH]; simpl; intros Hnotin; auto.
  destruct (String.eqb_spec k0 k) as [->|Hk]; [tauto|]. apply IH. tauto.
Qed.

Lemma entries_for_NoDup m k :
  NoDup (JSMap.keys m) -> (JSMap.entries_for k m <= 1)%nat.
Proof.
  unfold JSMap.entries_for.
  induction m as [|[k0 v0] m IH]; simpl; intros Hnd; [lia|].
  inversion Hnd as [|? ? Hnotin Hnd']; subst.
  destruct (String.eqb_spec k0 k) as [->|Hk]; simpl; [|now apply IH].
  pose proof (entries_for_absent m k Hnotin) as E.
  unfold JSMap.entries_for in E. rewrite E. lia.
Qed.

Lemma entries_for_present m k v :
  NoDup (JSMap.keys m) -> JSMap.get k m = Some v ->
  JSMap.entries_for k m = 1%nat.
Proof.
  unfold JSMap.entries_for.
  induction m as [|[k0 v0] m IH]; simpl; intros Hnd Hget; [discriminate|].
  inversion Hnd as [|? ? Hnotin Hnd']; subst.
  destruct (String.eqb_spec k0 k) as [->|Hk]; simpl; [|now apply IH].
  pose proof (entries_for_absent m k Hnotin) as E.
  unfold JSMap.entries_for in E. now rewrite E.
Qed.

End MapFacts.

(** ** The router, for every implementation of the libraries *)

(** The case analysis the handler makes, in the order of the source: the
    URL, the route, the decoding, the parse, the entry, the two clock
    tests. *)
Ltac handler_cases :=
  repeat match goal with
    | |- context [match URL_pathname ?i ?b with _ => _ end] =>
        destruct (URL_pathname i b)
    | |- context [if (String.eqb ?m ?g && JS.startsWith ?p ?r)%bool
                  then _ else _] =>
        destruct (String.eqb m g && JS.startsWith p r)%bool
    | |- context [match JS.decodeURIComponent ?x with _ => _ end] =>
        destruct (JS.decodeURIComponent x)
    | |- context [match CID_parse ?x with _ => _ end] =>
        destruct (CID_parse x)
    | |- context [match JSMap.get ?k ?m with _ => _ end] =>
        destruct (JSMap.get k m)
    | |- context [if (Router.expiresAt ?e <=? ?t) then _ else _] =>
        destruct (Router.expiresAt e <=? t)
    end.

Section RouterFacts.

Import JS Router.

Context {P : Platform}.

Implicit Types (s : state) (req : IncomingMessage) (k : string).

Lemma with_providers_same s : with_providers s (providersByCid s) = s.
Proof. now destruct s. Qed.

(** The handler is the directory lookup of lines 64-73 behind the route
    test, the decoding of the path segment and the parse of the result. *)
Lemma handler_lookup req now_check now_evict s pathname requestedCid c :
  URL_pathname (url_or_root req) (baseUrl req) = Some pathname ->
  String.eqb (method req) "GET" && startsWith pathname providers_route = true ->
  decodeURIComponent (slice pathname (String.length providers_route))
    = Some requestedCid ->
  CID_parse requestedCid = Some c ->
  handler req now_check now_evict s =
    (Normal
       match fst (lookup (CID_toString c) now_check now_evict
                         (providersByCid s)) with
       | Some r => json 200 (Providers [r])
       | None => json 404 (Providers [])
       end,
     with_providers (bump s)
       (snd (lookup (CID_toString c) now_check now_evict (providersByCid s)))).
Proof.
  intros Hurl Hroute Hdec Hparse. unfold handler, lookup.
  rewrite Hurl, Hroute, Hdec, Hparse. cbn [bump providersByCid].
  destruct (JSMap.get (CID_toString c) (providersByCid s)) as [e|]; cbn.
  - destruct (expiresAt e <=? now_check); cbn.
    + destruct (expiresAt e <=? now_evict); cbn; [reflexivity|].
      now destruct s.
    + now destruct s.
  - now destruct s.
Qed.

(** The whole table of responses, for the requests whose path segment
    [decodeURIComponent] accepts. *)
Lemma handler_status_table req now_check now_evict s pathname :
  URL_pathname (url_or_root req) (baseUrl req) = Some pathname ->
  let out := fst (handler req now_check now_evict s) in
  let segment := slice pathname (String.length providers_route) in
  (is_provider_lookup req = false ->
   out = Normal (json 404 (message "not found")))
  /\ (is_provider_lookup req = true ->
      forall requestedCid, decodeURIComponent segment = Some requestedCid ->
        (CID_parse requestedCid = None ->
         out = Normal (json 422 (Providers [])))
        /\ (forall c, CID_parse requestedCid = Some c ->
              match JSMap.get (CID_toString c) (providersByCid s) with
              | Some e =>
                  if now_check <? expiresAt e
                  then out = Normal (json 200 (Providers [peerRecord e]))
                  else out = Normal (json 404 (Providers []))
              | None => out = Normal (json 404 (Providers []))
              end)).
Proof.
  intros Hurl out segment. subst out segment.
  unfold is_provider_lookup, handler. rewrite Hurl.
  destruct (String.eqb (method req) "GET"
            && startsWith pathname providers_route).
  - split; [discriminate|]. intros _ requestedCid Hdec. rewrite Hdec.
    split.
    + intros Hparse. now rewrite Hparse.
    + intros c Hparse. rewrite Hparse. cbn [bump providersByCid].
      destruct (JSMap.get (CID_toString c) (providersByCid s)) as [e|];
        [|reflexivity].
      rewrite Z.ltb_antisym.
      now destruct (expiresAt e <=? now_check).
  - split; [reflexivity | discriminate].
Qed.

(** The handler never adds a key. *)
Lemma handler_keys req now_check now_evict s k :
  In k (JSMap.keys
          (providersByCid (snd (handler req now_check now_evict s)))) ->
  In k (JSMap.keys (providersByCid s)).
Proof.
  unfold handler. handler_cases; auto. cbn. apply keys_delete.
Qed.

Lemma handler_get_None req now_check now_evict s k :
  JSMap.get k (providersByCid s) = None ->
  JSMap.get k (providersByCid (snd (handler req now_check now_evict s))) = None.
Proof.
  rewrite !get_None_iff. intros Hnotin Hin. apply Hnotin.
  eapply handler_keys. exact Hin.
Qed.

Lemma serve_get_None reqs s k :
  JSMap.get k (providersByCid s) = None ->
  JSMap.get k (providersByCid (serve reqs s)) = None.
Proof.
  revert s. induction reqs as [|[[req n1] n2] reqs IH]; intros s Hget; cbn.
  - exact Hget.
  - apply IH. now apply handler_get_None.
Qed.

Lemma handler_NoDup req now_check now_evict s :
  NoDup (JSMap.keys (providersByCid s)) ->
  NoDup (JSMap.keys (providersByCid (snd (handler req now_check now_evict s)))).
Proof.
  intros Hnd. unfold handler. handler_cases; auto.
  cbn. now apply NoDup_delete.
Qed.

Lemma announce_NoDup c r now s :
  NoDup (JSMap.keys (providersByCid s)) ->
  NoDup (JSMap.keys (providersByCid (snd (announceProvider c r now s)))).
Proof.
  intros Hnd. unfold announceProvider.
  destruct (CID_parse (CID_toString c)) as [c'|]; [|auto].
  cbn. now apply NoDup_set.
Qed.

Lemma step_NoDup s s' :
  step s s' ->
  NoDup (JSMap.keys (providersByCid s)) ->
  NoDup (JSMap.keys (providersByCid s')).
Proof.
  intros [req n1 n2 s0 | c r now s0].
  - apply handler_NoDup.
  - apply announce_NoDup.
Qed.

Lemma reachable_NoDup s :
  reachable s -> NoDup (JSMap.keys (providersByCid s)).
Proof.
  induction 1 as [|s s' _ IH Hstep].
  - constructor.
  - eapply step_NoDup; eauto.
Qed.

Lemma reachable_canonical s :
  reachable s ->
  forall k, In k (JSMap.keys (providersByCid s)) -> canonical k.
Proof.
  induction 1 as [|s s' _ IH Hstep]; intros k Hin.
  - destruct Hin.
  - destruct Hstep as [req n1 n2 s | c r now s].
    + apply IH. eapply handler_keys. exact Hin.
    + unfold announceProvider in Hin.
      destruct (CID_parse (CID_toString c)) as [c'|] eqn:Hparse;
        [|now apply IH].
      cbn in Hin. apply keys_set in Hin. destruct Hin as [->|Hin].
      * now exists (CID_toString c), c'.
      * now apply IH.
Qed.

Lemma serve_reachable reqs s : reachable s -> reachable (serve reqs s).
Proof.
  revert s. induction reqs as [|[[req n1] n2] reqs IH]; intros s Hs; cbn.
  - exact Hs.
  - apply IH. eapply reachable_step; [exact Hs | constructor].
Qed.

Lemma handler_requested_key req now_check now_evict s k :
  requested_key req = Some k ->
  handler req now_check now_evict s =
    (Normal
       match fst (lookup k now_check now_evict (providersByCid s)) with
       | Some r => json 200 (Providers [r])
       | None => json 404 (Providers [])
       end,
     with_providers (bump s)
       (snd (lookup k now_check now_evict (providersByCid s)))).
Proof.
  unfold requested_key, normalize.
  destruct (URL_pathname _ _) as [pathname|] eqn:Hurl; [|discriminate].
  destruct (_ && _) eqn:Hroute; [|discriminate].
  destruct (decodeURIComponent _) as [requestedCid|] eqn:Hdec; [|discriminate].
  destruct (CID_parse requestedCid) as [c|] eqn:Hparse; [|discriminate].
  cbn. intros [= <-]. eapply handler_lookup; eauto.
Qed.

Lemma requested_key_lookup req k :
  requested_key req = Some k -> is_provider_lookup req = true.
Proof.
  unfold requested_key, is_provider_lookup.
  destruct (URL_pathname _ _); [|discriminate].
  now destruct (_ && _).
Qed.

(** What [lookup] answers, in terms of the entry under the key. *)
Lemma lookup_Some m k now_check now_evict r :
  fst (lookup k now_check now_evict m) = Some r <->
  exists e,
    JSMap.get k m = Some e /\ now_check < expiresAt e /\ peerRecord e = r.
Proof.
  unfold lookup. destruct (JSMap.get k m) as [e|]; cbn.
  - destruct (Z.leb_spec (expiresAt e) now_check); cbn.
    + split; [discriminate|]. intros (e' & [= <-] & Hlt & _). lia.
    + split.
      * intros [= <-]. now exists e.
      * intros (e' & [= <-] & _ & <-). reflexivity.
  - split; [discriminate|]. intros (e' & [=] & _).
Qed.

Lemma lookup_None m k now_check now_evict :
  fst (lookup k now_check now_evict m) = None <->
  JSMap.get k m = None
  \/ exists e, JSMap.get k m = Some e /\ expiresAt e <= now_check.
Proof.
  unfold lookup. destruct (JSMap.get k m) as [e|]; cbn.
  - destruct (Z.leb_spec (expiresAt e) now_check); cbn.
    + split; [|reflexivity]. intros _. right. now exists e.
    + split; [discriminate|]. intros [[=]|(e' & [= <-] & Hle)]. lia.
  - split; [|reflexivity]. now left.
Qed.

Lemma lookup_live m k now_check now_evict e :
  JSMap.get k m = Some e -> now_check < expiresAt e ->
  lookup k now_check now_evict m = (Some (peerRecord e), m).
Proof.
  intros Hget Hlt. unfold lookup. rewrite Hget.
  destruct (Z.leb_spec (expiresAt e) now_check); [lia | reflexivity].
Qed.

Lemma lookup_absent m k now_check now_evict :
  JSMap.get k m = None -> lookup k now_check now_evict m = (None, m).
Proof. intros Hget. unfold lookup. now rewrite Hget. Qed.

(** What a successful [announceProvider] leaves. *)
Lemma announce_Normal c r now s s' :
  announceProvider c r now s = (Normal tt, s') ->
  exists c',
    CID_parse (CID_toString c) = Some c'
    /\ s' = with_providers s
              (JSMap.set (CID_toString c')
                 {| peerRecord := r; expiresAt := now + PROVIDER_TTL_MS |}
                 (providersByCid s)).
Proof.
  unfold announceProvider.
  destruct (CID_parse (CID_toString c)) as [c'|]; [|discriminate].
  intros [= <-]. now exists c'.
Qed.

End RouterFacts.

(** ** The directory: expiry, eviction, overwriting *)

Section DirectoryClaims.

Import JS Router.

Context {P : Platform}.

(** C3 - TTL correctness.  After [announceProvider] stored record [r] for
    an identifier at time [t0], with [T] the time to live it applies, the
    lookup of the identifier's key at time [t0 + T - 1] returns [r] and
    leaves the directory as it is, and the lookup at time [t0 + T + 1]
    returns nothing; so does every request that reads this key.  In general
    a lookup returns the stored record exactly when there is an entry under
    the key and the time read is before its [expiresAt], and nothing
    otherwise. *)
Theorem ttl_correctness (c : CID) (r : PeerRecord) (T t0 : Z) (s s' : state) :
  T = PROVIDER_TTL_MS ->
  announceProvider c r t0 s = (Normal tt, s') ->
  exists k,
    normalize (CID_toString c) = Some k
    /\ (forall now_evict,
          lookup k (t0 + T - 1) now_evict (providersByCid s')
          = (Some r, providersByCid s'))
    /\ (forall now_evict,
          fst (lookup k (t0 + T + 1) now_evict (providersByCid s')) = None)
    /\ (forall req now_evict,
          requested_key req = Some k ->
          fst (handler req (t0 + T - 1) now_evict s')
          = Normal (json 200 (Providers [r]))
          /\ fst (handler req (t0 + T + 1) now_evict s')
             = Normal (json 404 (Providers [])))
    /\ (forall m key now now_evict r',
          fst (lookup key now now_evict m) = Some r' <->
          exists e, JSMap.get key m = Some e
                    /\ now < expiresAt e /\ peerRecord e = r')
    /\ (forall m key now now_evict,
          fst (lookup key now now_evict m) = None <->
          JSMap.get key m = None
          \/ exists e, JSMap.get key m = Some e /\ expiresAt e <= now).
Proof.
  intros -> Hann.
  destruct (announce_Normal _ _ _ _ _ Hann) as (c' & Hparse & ->).
  exists (CID_toString c').
  set (e := {| peerRecord := r; expiresAt := t0 + PROVIDER_TTL_MS |}).
  assert (Hget : JSMap.get (CID_toString c')
                   (providersByCid
                      (with_providers s
                         (JSMap.set (CID_toString c') e (providersByCid s))))
                 = Some e) by (cbn; apply get_set_same).
  assert (Hlive : forall now_evict,
             lookup (CID_toString c') (t0 + PROVIDER_TTL_MS - 1) now_evict
               (providersByCid
                  (with_providers s
                     (JSMap.set (CID_toString c') e (providersByCid s))))
             = (Some r,
                providersByCid
                  (with_providers s
                     (JSMap.set (CID_toString c') e (providersByCid s))))).
  { intros now_evict.
    apply (lookup_live _ _ _ now_evict e Hget). cbn. lia. }
  assert (Hdead : forall now_evict,
             fst (lookup (CID_toString c') (t0 + PROVIDER_TTL_MS + 1) now_evict
                    (providersByCid
                       (with_providers s
                          (JSMap.set (CID_toString c') e (providersByCid s)))))
             = None).
  { intros now_evict. apply lookup_None. right. exists e.
    split; [exact Hget | cbn; lia]. }
  split; [unfold normalize; now rewrite Hparse|].
  split; [exact Hlive|]. split; [exact Hdead|]. split.
  - intros req now_evict Hkey. split.
    + rewrite (handler_requested_key _ _ _ _ _ Hkey). cbn [fst].
      now rewrite Hlive.
    + rewrite (handler_requested_key _ _ _ _ _ Hkey). cbn [fst].
      now rewrite Hdead.
  - split; intros; [apply lookup_Some | apply lookup_None].
Qed.

(** C4 - Eviction on read.  In a reachable state, a lookup that reads time
    [t] and finds the entry of key [k] expired ([expiresAt <= t]) answers
    nothing, and the request that makes it is answered 404; whatever the
    clock says at the second reading, every lookup of [k] made afterwards at
    time [t] or later answers nothing as well.  When the clock has not gone
    back between the two readings the entry is deleted by that lookup: the
    key is absent afterwards and, whatever requests are served next and
    whatever the time, a lookup of [k] answers nothing and changes
    nothing. *)
Theorem eviction_on_read (s : state) (k : string) (e : entry)
        (t now_evict : Z) :
  reachable s ->
  JSMap.get k (providersByCid s) = Some e ->
  expiresAt e <= t ->
  t <= now_evict ->
  let m' := snd (lookup k t now_evict (providersByCid s)) in
  fst (lookup k t now_evict (providersByCid s)) = None
  /\ m' = JSMap.delete k (providersByCid s)
  /\ JSMap.get k m' = None
  /\ (forall req,
        requested_key req = Some k ->
        handler req t now_evict s
        = (Normal (json 404 (Providers [])), with_providers (bump s) m'))
  /\ (forall reqs u u',
        lookup k u u' (providersByCid (serve reqs (with_providers s m')))
        = (None, providersByCid (serve reqs (with_providers s m'))))
  /\ (forall any_evict u u',
        t <= u ->
        fst (lookup k u u'
               (snd (lookup k t any_evict (providersByCid s)))) = None).
Proof.
  intros Hreach Hget Hexp Hclock m'.
  pose proof (reachable_NoDup _ Hreach) as Hnd.
  assert (Hfst : fst (lookup k t now_evict (providersByCid s)) = None).
  { apply lookup_None. right. now exists e. }
  assert (Hm' : m' = JSMap.delete k (providersByCid s)).
  { subst m'. unfold lookup. rewrite Hget.
    destruct (Z.leb_spec (expiresAt e) t); [|lia].
    destruct (Z.leb_spec (expiresAt e) now_evict); [reflexivity | lia]. }
  assert (Hgone : JSMap.get k m' = None).
  { rewrite Hm'. now apply get_delete_same. }
  split; [exact Hfst|]. split; [exact Hm'|]. split; [exact Hgone|].
  split; [|split].
  - intros req Hkey. rewrite (handler_requested_key _ _ _ _ _ Hkey).
    now rewrite Hfst.
  - intros reqs u u'. apply lookup_absent. now apply serve_get_None.
  - intros any_evict u u' Hu. apply lookup_None.
    assert (Hsnd : snd (lookup k t any_evict (providersByCid s))
                   = if expiresAt e <=? any_evict
                     then JSMap.delete k (providersByCid s)
                     else providersByCid s).
    { unfold lookup. rewrite Hget.
      destruct (Z.leb_spec (expiresAt e) t); [reflexivity | lia]. }
    rewrite Hsnd. destruct (expiresAt e <=? any_evict).
    + left. now apply get_delete_same.
    + right. exists e. split; [exact Hget | lia].
Qed.

(** C5 - One entry per identifier, and overwriting.  In every reachable
    state no key of the directory occurs twice, so a key has at most one
    entry, and every key is the string form of a parsed identifier.  Two
    successful announcements of the same identifier, first of [r1] then of
    [r2], leave under its key exactly one entry, made of [r2] and of the
    expiry of the second announcement alone; the second announcement adds no
    key, and a lookup of the key can return nothing but [r2], which it does
    until that expiry. *)
Theorem single_entry_overwrite (s : state) :
  reachable s ->
  (NoDup (JSMap.keys (providersByCid s))
   /\ (forall k, (JSMap.entries_for k (providersByCid s) <= 1)%nat)
   /\ (forall k, In k (JSMap.keys (providersByCid s)) -> canonical k))
  /\ (forall (c : CID) (r1 r2 : PeerRecord) (t1 t2 : Z) (s1 s2 : state),
        announceProvider c r1 t1 s = (Normal tt, s1) ->
        announceProvider c r2 t2 s1 = (Normal tt, s2) ->
        exists k,
          normalize (CID_toString c) = Some k
          /\ JSMap.get k (providersByCid s2)
             = Some {| peerRecord := r2; expiresAt := t2 + PROVIDER_TTL_MS |}
          /\ JSMap.entries_for k (providersByCid s2) = 1%nat
          /\ JSMap.keys (providersByCid s2) = JSMap.keys (providersByCid s1)
          /\ (forall now now_evict r,
                fst (lookup k now now_evict (providersByCid s2)) = Some r ->
                r = r2)
          /\ (forall now now_evict,
                now < t2 + PROVIDER_TTL_MS ->
                fst (lookup k now now_evict (providersByCid s2)) = Some r2)).
Proof.
  intros Hreach. pose proof (reachable_NoDup _ Hreach) as Hnd. split.
  - split; [exact Hnd|]. split.
    + intros k. now apply entries_for_NoDup.
    + now apply reachable_canonical.
  - intros c r1 r2 t1 t2 s1 s2 Hann1 Hann2.
    destruct (announce_Normal _ _ _ _ _ Hann1) as (c1 & Hparse1 & ->).
    destruct (announce_Normal _ _ _ _ _ Hann2) as (c2 & Hparse2 & ->).
    assert (c2 = c1) as -> by congruence. clear Hparse2.
    exists (CID_toString c1). cbn [providersByCid with_providers].
    set (k := CID_toString c1).
    set (e1 := {| peerRecord := r1; expiresAt := t1 + PROVIDER_TTL_MS |}).
    set (e2 := {| peerRecord := r2; expiresAt := t2 + PROVIDER_TTL_MS |}).
    set (m1 := JSMap.set k e1 (providersByCid s)).
    assert (Hnd1 : NoDup (JSMap.keys m1)) by now apply NoDup_set.
    assert (Hget2 : JSMap.get k (JSMap.set k e2 m1) = Some e2)
      by apply get_set_same.
    split; [unfold normalize; now rewrite Hparse1|].
    split; [exact Hget2|]. split; [|split; [|split]].
    + eapply entries_for_present; [now apply NoDup_set | exact Hget2].
    + apply keys_set_present. apply keys_set. now left.
    + intros now now_evict r Hr. apply lookup_Some in Hr.
      destruct Hr as (e & Hget & _ & <-). rewrite Hget2 in Hget.
      now injection Hget as <-.
    + intros now now_evict Hlt. apply lookup_Some. exists e2.
      split; [exact Hget2|]. split; [exact Hlt | reflexivity].
Qed.

End DirectoryClaims.

(** ** The server: counter, frame, announcements, malformed requests *)

Section ServerClaims.

Import JS Router.

Context {P : Platform}.


Lemma announce_count c r now s :
  providerQueryCount (snd (announceProvider c r now s)) = providerQueryCount s.
Proof.
  unfold announceProvider. now destruct (CID_parse (CID_toString c)).
Qed.



Lemma handler_frame req now_check now_evict s :
  providersByCid (snd (handler req now_check now_evict s)) = providersByCid s
  \/ exists k e,
       requested_key req = Some k
       /\ JSMap.get k (providersByCid s) = Some e
       /\ expiresAt e <= now_check
       /\ fst (handler req now_check now_evict s)
          = Normal (json 404 (Providers []))
       /\ providersByCid (snd (handler req now_check now_evict s))
          = JSMap.delete k (providersByCid s).
Proof.
  unfold handler, requested_key, normalize.
  destruct (URL_pathname _ _) as [pathname|]; [|now left].
  destruct (_ && _); [|now left].
  destruct (decodeURIComponent _) as [requestedCid|]; [|now left].
  destruct (CID_parse requestedCid) as [c|]; [|now left].
  cbn [bump providersByCid option_map].
  destruct (JSMap.get _ _) as [e|] eqn:Hget; [|now left].
  destruct (Z.leb_spec (expiresAt e) now_check); [|now left].
  destruct (expiresAt e <=? now_evict); [|now left].
  right. exists (CID_toString c), e. cbn. auto.
Qed.

(** C10 - Frame.  [announceProvider] and the handler leave the entry of
    every key other than the one they compute from their identifier as it
    is; a request answered 200 leaves the whole directory as it is; a
    request changes the directory, if at all, by deleting the one key it
    read, whose entry had expired, and nothing else; [announceProvider]
    never changes the counter. *)
Theorem directory_frame :
  (forall c r now s k,
      normalize (CID_toString c) <> Some k ->
      JSMap.get k (providersByCid (snd (announceProvider c r now s)))
      = JSMap.get k (providersByCid s))
  /\ (forall req now_check now_evict s k,
         requested_key req <> Some k ->
         JSMap.get k (providersByCid (snd (handler req now_check now_evict s)))
         = JSMap.get k (providersByCid s))
  /\ (forall req now_check now_evict s resp,
         fst (handler req now_check now_evict s) = Normal resp ->
         statusCode resp = 200 ->
         providersByCid (snd (handler req now_check now_evict s))
         = providersByCid s)
  /\ (forall req now_check now_evict s,
         providersByCid (snd (handler req now_check now_evict s))
         <> providersByCid s ->
         exists k e,
           requested_key req = Some k
           /\ JSMap.get k (providersByCid s) = Some e
           /\ expiresAt e <= now_check
           /\ providersByCid (snd (handler req now_check now_evict s))
              = JSMap.delete k (providersByCid s))
  /\ (forall c r now s,
         getProviderQueryCount (snd (announceProvider c r now s))
         = getProviderQueryCount s).
Proof.
  split; [|split; [|split; [|split]]].
  - intros c r now s k Hk. unfold announceProvider, normalize in *.
    destruct (CID_parse (CID_toString c)) as [c'|]; [|reflexivity].
    cbn in *. apply get_set_other. congruence.
  - intros req now_check now_evict s k Hk.
    destruct (handler_frame req now_check now_evict s)
      as [->|(k' & e & Hkey & _ & _ & _ & ->)]; [reflexivity|].
    apply get_delete_other. congruence.
  - intros req now_check now_evict s resp Hresp Hstatus.
    destruct (handler_frame req now_check now_evict s)
      as [->|(k' & e & _ & _ & _ & H404 & _)]; [reflexivity|].
    rewrite H404 in Hresp. injection Hresp as <-. discriminate.
  - intros req now_check now_evict s Hchanged.
    destruct (handler_frame req now_check now_evict s)
      as [Hsame|(k' & e & Hkey & Hget & Hexp & _ & Hdel)]; [contradiction|].
    now exists k', e.
  - intros. apply announce_count.
Qed.

(** C8, as the code has it - The announce contract.  An announcement whose
    identifier has a string form that parses succeeds: it puts under the
    normalised key the entry made of the record and of
    [expiresAt = now + PROVIDER_TTL_MS], over whatever was there, and changes
    no other key and not the counter.  The time to live is the constant
    [PROVIDER_TTL_MS] of 24 hours, 86 400 000 ms; the options of the server
    carry no time to live.  An announcement succeeds only when the string
    form parses. *)
Theorem announce_contract (c c' : CID) (r : PeerRecord) (now : Z) (s : state) :
  CID_parse (CID_toString c) = Some c' ->
  let k := CID_toString c' in
  let s' := snd (announceProvider c r now s) in
  fst (announceProvider c r now s) = Normal tt
  /\ JSMap.get k (providersByCid s')
     = Some {| peerRecord := r; expiresAt := now + 86400000 |}
  /\ (forall k', k' <> k ->
        JSMap.get k' (providersByCid s') = JSMap.get k' (providersByCid s))
  /\ getProviderQueryCount s' = getProviderQueryCount s
  /\ PROVIDER_TTL_MS = 86400000
  /\ (forall opts, createDelegatedRouterServer opts = initial)
  /\ (forall c0 r0 now0 s0,
        fst (announceProvider c0 r0 now0 s0) = Normal tt ->
        CID_parse (CID_toString c0) <> None).
Proof.
  intros Hparse k s'. subst k s'. unfold announceProvider. rewrite Hparse.
  cbn [fst snd providersByCid with_providers].
  split; [reflexivity|]. split; [apply get_set_same|].
  split; [intros k' Hk'; now apply get_set_other|].
  split; [reflexivity|]. split; [reflexivity|]. split; [reflexivity|].
  intros c0 r0 now0 s0.
  destruct (CID_parse (CID_toString c0)); [discriminate|].
  cbn. discriminate.
Qed.

(** The exception of [new URL] is not caught either. *)
Lemma invalid_url_throws req now_check now_evict s :
  URL_pathname (url_or_root req) (baseUrl req) = None ->
  handler req now_check now_evict s = (Throw TypeError, s).
Proof. intros Hurl. unfold handler. now rewrite Hurl. Qed.

Lemma handler_URIError req pathname now_check now_evict s :
  URL_pathname (url_or_root req) (baseUrl req) = Some pathname ->
  String.eqb (method req) "GET" && startsWith pathname providers_route = true ->
  decodeURIComponent (slice pathname (String.length providers_route)) = None ->
  handler req now_check now_evict s = (Throw URIError, bump s).
Proof.
  intros Hurl Hroute Hdec. unfold handler. now rewrite Hurl, Hroute, Hdec.
Qed.

(** C2 - Exceptions that leave the handler.  A provider lookup whose path
    segment [decodeURIComponent] rejects is not answered: the [URIError]
    leaves the handler, after the counter was incremented.  So does the
    [TypeError] of [new URL] when the request target and the [Host] header
    make no URL. *)
Theorem exceptions_leave_handler req now_check now_evict s :
  (forall pathname,
      URL_pathname (url_or_root req) (baseUrl req) = Some pathname ->
      String.eqb (method req) "GET" && startsWith pathname providers_route
      = true ->
      decodeURIComponent (slice pathname (String.length providers_route))
      = None ->
      handler req now_check now_evict s = (Throw URIError, bump s))
  /\ (URL_pathname (url_or_root req) (baseUrl req) = None ->
      handler req now_check now_evict s = (Throw TypeError, s)).
Proof.
  split.
  - intros pathname. apply handler_URIError.
  - apply invalid_url_throws.
Qed.

(** C1 - The request [GET /routing/v1/providers/%].  Its path names the
    providers route and its identifier, a lone percent sign, is no content
    identifier; it is answered neither 422 nor anything else: the handler
    throws [URIError]. *)
Theorem lone_percent_not_answered now_check now_evict s :
  URL_pathname "/routing/v1/providers/%" "http://127.0.0.1:25150"
    = Some "/routing/v1/providers/%" ->
  handler (GET "/routing/v1/providers/%") now_check now_evict s
    = (Throw URIError, bump s)
  /\ fst (handler (GET "/routing/v1/providers/%") now_check now_evict s)
     <> Normal (json 422 (Providers [])).
Proof.
  intros Hurl.
  assert (H : handler (GET "/routing/v1/providers/%") now_check now_evict s
              = (Throw URIError, bump s)).
  { apply handler_URIError with (pathname := "/routing/v1/providers/%");
      [exact Hurl | reflexivity | reflexivity]. }
  rewrite H. split; [reflexivity | discriminate].
Qed.

End ServerClaims.

(** C8, as the specification has it, fails.  On a server created with the
    options [{ port: 25150 }], the announcement of [peerA] at time 0 stores
    the expiry 86 400 000, and a lookup one second later, or 23 hours later,
    still returns the record.  Whatever the libraries, the options given to
    the server, the identifier, the record and the time, an entry found
    after an announcement on a fresh server expires 24 hours after the
    announcement: no caller can have a shorter time to live. *)
Lemma ttl_is_not_configurable :
  (let s' :=
     snd (Router.announceProvider (P := Router.example_platform)
            Router.example_cid Router.peerA 0
            (Router.createDelegatedRouterServer {| Router.port := 25150 |})) in
   JSMap.get Router.example_cid (Router.providersByCid s')
   = Some {| Router.peerRecord := Router.peerA;
             Router.expiresAt := 86400000 |}
   /\ fst (Router.lookup Router.example_cid 1000 1000
             (Router.providersByCid s')) = Some Router.peerA
   /\ fst (Router.lookup Router.example_cid 82800000 82800000
             (Router.providersByCid s')) = Some Router.peerA)
  /\ ~ (exists (P : Platform) (opts : Router.options) (c : CID)
               (r : Router.PeerRecord) (now : Z) (k : string)
               (e : Router.entry),
           JSMap.get k
             (Router.providersByCid
                (snd (Router.announceProvider c r now
                        (Router.createDelegatedRouterServer opts))))
           = Some e
           /\ Router.expiresAt e < now + 24 * 60 * 60 * 1000).
Proof.
  split; [repeat split|].
  intros (P & opts & c & r & now & k & e & Hget & Hlt).
  unfold Router.announceProvider, Router.createDelegatedRouterServer in Hget.
  destruct (CID_parse (CID_toString c)) as [c'|]; cbn in Hget.
  - destruct (String.eqb (CID_toString c') k); [|discriminate].
    injection Hget as <-. cbn in Hlt. unfold Router.PROVIDER_TTL_MS in Hlt. lia.
  - discriminate.
Qed.

(** C3, as the specification has it, fails for every time to live but the
    one of 24 hours.  The announcement takes no time to live: after the
    announcement of [peerA] at time 0 a lookup at time 0 + T + 1 for T of
    one second still returns the record, and a lookup at time 0 + T - 1 for
    T of 48 hours returns nothing.  So the two lookups of the claim do not
    come out as stated for every T. *)
Lemma ttl_other_than_24h_fails :
  (let s' :=
     snd (Router.announceProvider (P := Router.example_platform)
            Router.example_cid Router.peerA 0 Router.initial) in
   Router.announceProvider (P := Router.example_platform)
     Router.example_cid Router.peerA 0 Router.initial
   = (JS.Normal tt, s')
   /\ Router.normalize (P := Router.example_platform)
        (CID_toString (Platform := Router.example_platform)
           Router.example_cid)
      = Some Router.example_cid
   /\ fst (Router.lookup Router.example_cid (0 + 1000 + 1) (0 + 1000 + 1)
             (Router.providersByCid s')) = Some Router.peerA
   /\ fst (Router.lookup Router.example_cid
             (0 + 172800000 - 1) (0 + 172800000 - 1)
             (Router.providersByCid s')) = None)
  /\ ~ (forall (P : Platform) (c : CID) (r : Router.PeerRecord) (T t0 : Z)
               (s s' : Router.state) (k : string) (now_evict : Z),
           0 < T ->
           Router.announceProvider c r t0 s = (JS.Normal tt, s') ->
           Router.normalize (CID_toString c) = Some k ->
           fst (Router.lookup k (t0 + T - 1) now_evict
                  (Router.providersByCid s')) = Some r
           /\ fst (Router.lookup k (t0 + T + 1) now_evict
                     (Router.providersByCid s')) = None).
Proof.
  split; [repeat split|].
  intros H.
  destruct (H Router.example_platform Router.example_cid Router.peerA
              1000 0 Router.initial
              (snd (Router.announceProvider (P := Router.example_platform)
                      Router.example_cid Router.peerA 0 Router.initial))
              Router.example_cid 1001)
    as [_ Hdead]; [lia | reflexivity | reflexivity |].
  vm_compute in Hdead. discriminate.
Qed.

(** ** Key derivation *)

Section KeyDerivationClaims.

Import Multiformats KeyDerivation.

(** A number below 128 is its own varint. *)
Lemma varint_small n : n < 128 -> varint n = [n].
Proof.
  intros Hn. unfold varint. cbn [varint_go].
  destruct (Z.ltb_spec n 128); [reflexivity | lia].
Qed.

Lemma be_bytes_length n x : List.length (SHA256.be_bytes n x) = n.
Proof.
  unfold SHA256.be_bytes. now rewrite length_map, length_rev, length_seq.
Qed.

Lemma be_bytes_range n x :
  Forall (fun b => 0 <= b < 256) (SHA256.be_bytes n x).
Proof.
  unfold SHA256.be_bytes. apply Forall_map, Forall_forall. intros i _.
  change 0xFF with (Z.ones 8). rewrite Z.land_ones by lia.
  apply Z.mod_pos_bound. lia.
Qed.

Lemma sha256_length bytes : List.length (SHA256.array bytes) = 32%nat.
Proof.
  unfold SHA256.array, SHA256.digest_bytes. cbn [flat_map].
  now rewrite !length_app, !be_bytes_length.
Qed.

Lemma sha256_range bytes : Forall (fun b => 0 <= b < 256) (SHA256.array bytes).
Proof.
  unfold SHA256.array, SHA256.digest_bytes. cbn [flat_map].
  repeat (apply Forall_app; split); try apply be_bytes_range. constructor.
Qed.

(** The identifier [pubsubTopicToDhtKeyCid] builds, for every topic. *)
Lemma derived_identifier (topic : string) :
  pubsubTopicToDhtKeyCid topic
  = Some (spec_identifier
            (SHA256.array (TextEncoder_encode ("floodsub:" ++ topic)))).
Proof.
  unfold pubsubTopicToDhtKeyCid, CID_create, Digest_create, spec_identifier,
    spec_digest.
  now rewrite sha256_length.
Qed.

(** The encoder of the source gives the bytes of the characters. *)
Lemma code_byte c : JS.code c = Z.of_N (Byte.to_N (byte_of_ascii c)).
Proof. destruct c as [[] [] [] [] [] [] [] []]; reflexivity. Qed.

Lemma encode_utf8 s : TextEncoder_encode s = utf8 s.
Proof.
  unfold TextEncoder_encode, utf8.
  induction s as [|c s IH]; cbn [list_ascii_of_string list_byte_of_string map];
    [reflexivity|].
  now rewrite IH, code_byte.
Qed.

Lemma encode_message topic :
  TextEncoder_encode ("floodsub:" ++ topic) = hashed_message topic.
Proof.
  unfold hashed_message. rewrite <- encode_utf8. reflexivity.
Qed.

Lemma code_inj c1 c2 : JS.code c1 = JS.code c2 -> c1 = c2.
Proof.
  unfold JS.code. intros H. apply Nat2Z.inj in H.
  rewrite <- (ascii_nat_embedding c1), <- (ascii_nat_embedding c2).
  now rewrite H.
Qed.

Lemma encode_inj s1 : forall s2,
  TextEncoder_encode s1 = TextEncoder_encode s2 -> s1 = s2.
Proof.
  unfold TextEncoder_encode.
  induction s1 as [|c1 s1 IH]; intros [|c2 s2]; cbn; intros H;
    try discriminate; [reflexivity|].
  injection H as Hc Hs. apply code_inj in Hc. apply IH in Hs. now subst.
Qed.

(** Two topics with the same bytes to hash are one topic. *)
Lemma hashed_message_inj t1 t2 :
  hashed_message t1 = hashed_message t2 -> t1 = t2.
Proof.
  unfold hashed_message. intros H. apply app_inv_head in H.
  rewrite <- !encode_utf8 in H. now apply encode_inj.
Qed.

End KeyDerivationClaims.


(** ** Identifiers: text, digits, varints, parsing *)

Section IdentifierFacts.

Import Multiformats.

(** A property checked on every number below a bound holds below it. *)
Lemma below_check (P : Z -> bool) (n : nat) :
  forallb P (map Z.of_nat (seq 0 n)) = true ->
  forall d, 0 <= d < Z.of_nat n -> P d = true.
Proof.
  intros Hall d Hd. rewrite forallb_forall in Hall. apply Hall.
  apply in_map_iff. exists (Z.to_nat d). split; [lia|].
  apply in_seq. lia.
Qed.

Lemma alphabet_check alphabet :
  forallb (index_check alphabet)
          (map Z.of_nat (seq 0 (String.length alphabet))) = true ->
  alphabet_ok alphabet.
Proof.
  intros Hall d Hd. pose proof (below_check _ _ Hall d Hd) as H.
  unfold index_check in H.
  destruct (index_of (alphabet_get alphabet d) alphabet) as [d'|];
    [|discriminate].
  apply Z.eqb_eq in H. now subst.
Qed.

Lemma base32_alphabet_ok : alphabet_ok base32_alphabet.
Proof. apply alphabet_check. vm_compute. reflexivity. Qed.

Lemma base58_alphabet_ok : alphabet_ok base58_alphabet.
Proof. apply alphabet_check. vm_compute. reflexivity. Qed.

Lemma indices_text alphabet ds :
  alphabet_ok alphabet ->
  Forall (fun d => 0 <= d < Z.of_nat (String.length alphabet)) ds ->
  indices alphabet (text alphabet ds) = Some ds.
Proof.
  intros Hok. induction 1 as [|d ds Hd _ IH]; cbn; [reflexivity|].
  now rewrite (Hok d Hd), IH.
Qed.

(** Bits *)

Lemma of_bits8 b : byte b -> of_bits 0 (bits8 b) = b.
Proof.
  intros Hb.
  apply Z.eqb_eq.
  apply (below_check (fun b => of_bits 0 (bits8 b) =? b) 256);
    [vm_compute; reflexivity | exact Hb].
Qed.

Lemma bits5_of_bits b0 b1 b2 b3 b4 :
  bits5 (of_bits 0 [b0; b1; b2; b3; b4]) = [b0; b1; b2; b3; b4].
Proof. destruct b0, b1, b2, b3, b4; reflexivity. Qed.

Lemma of_bits5_range b0 b1 b2 b3 b4 :
  0 <= of_bits 0 [b0; b1; b2; b3; b4] < 32.
Proof. destruct b0, b1, b2, b3, b4; cbn; lia. Qed.

Lemma groups5_spec n : forall l, (List.length l <= n)%nat ->
  Forall (fun v => 0 <= v < 32) (groups5 l)
  /\ exists pad,
      flat_map bits5 (groups5 l) = (l ++ pad)%list
      /\ (List.length pad < 5)%nat /\ forallb negb pad = true.
Proof.
  induction n as [|n IH]; intros l Hlen.
  - destruct l; [|cbn in Hlen; lia]. split; [constructor|].
    exists []. cbn. repeat split. lia.
  - destruct l as [|b0 [|b1 [|b2 [|b3 [|b4 l]]]]].
    + split; [constructor|]. exists []. cbn. repeat split. lia.
    + split; [repeat constructor; apply of_bits5_range|].
      exists [false; false; false; false].
      cbn [groups5 flat_map app firstn]. rewrite bits5_of_bits.
      cbn. repeat split. lia.
    + split; [repeat constructor; apply of_bits5_range|].
      exists [false; false; false].
      cbn [groups5 flat_map app firstn]. rewrite bits5_of_bits.
      cbn. repeat split. lia.
    + split; [repeat constructor; apply of_bits5_range|].
      exists [false; false].
      cbn [groups5 flat_map app firstn]. rewrite bits5_of_bits.
      cbn. repeat split. lia.
    + split; [repeat constructor; apply of_bits5_range|].
      exists [false].
      cbn [groups5 flat_map app firstn]. rewrite bits5_of_bits.
      cbn. repeat split. lia.
    + destruct (IH l) as (Hrange & pad & Hbits & Hpad & Hzero);
        [cbn in Hlen; lia|].
      split; [constructor; [apply of_bits5_range | exact Hrange]|].
      exists pad. cbn [groups5 flat_map]. rewrite bits5_of_bits, Hbits.
      repeat split; assumption.
Qed.

Lemma bytes8_short l :
  (List.length l < 8)%nat ->
  bytes8 l
  = if (List.length l <? 5)%nat && forallb negb l then Some [] else None.
Proof.
  intros Hlen.
  destruct l as [|b0 [|b1 [|b2 [|b3 [|b4 [|b5 [|b6 [|b7 l]]]]]]]];
    try reflexivity.
  cbn in Hlen. lia.
Qed.

Lemma bytes8_bits8 b l :
  bytes8 (bits8 b ++ l)
  = option_map (cons (of_bits 0 (bits8 b))) (bytes8 l).
Proof. reflexivity. Qed.

Lemma bytes8_bits bytes pad :
  Forall byte bytes ->
  (List.length pad < 5)%nat -> forallb negb pad = true ->
  bytes8 (flat_map bits8 bytes ++ pad) = Some bytes.
Proof.
  intros Hbytes Hpad Hzero. induction Hbytes as [|b bytes Hb _ IH].
  - cbn [flat_map app]. rewrite bytes8_short by lia. rewrite Hzero.
    destruct (Nat.ltb_spec (List.length pad) 5); [reflexivity | lia].
  - cbn [flat_map].
    rewrite <- app_assoc, bytes8_bits8, IH, of_bits8 by exact Hb.
    reflexivity.
Qed.

Lemma base32_round_trip bytes :
  Forall byte bytes ->
  base32_decode (text base32_alphabet (groups5 (flat_map bits8 bytes)))
  = Some bytes.
Proof.
  intros Hbytes. unfold base32_decode.
  destruct (groups5_spec _ (flat_map bits8 bytes) (le_n _))
    as (Hrange & pad & Hbits & Hpad & Hzero).
  rewrite (indices_text _ _ base32_alphabet_ok Hrange), Hbits.
  now apply bytes8_bits.
Qed.

End IdentifierFacts.

Section DigitFacts.

Import Multiformats.

Variable base : Z.
Hypothesis base_ge_2 : 2 <= base.

Lemma canon_cons d ds :
  ds <> [] -> canon base (d :: ds) <-> digit base d /\ canon base ds.
Proof. destruct ds; [congruence | reflexivity]. Qed.

Lemma canon_digit ds : canon base ds -> Forall (digit base) ds.
Proof.
  induction ds as [|d ds IH]; [constructor|].
  destruct ds as [|d' ds].
  - cbn. intros H. constructor; [unfold digit; lia | constructor].
  - intros [Hd Hc]. constructor; [exact Hd | now apply IH].
Qed.

Lemma value_le_nonneg ds : Forall (digit base) ds -> 0 <= value_le base ds.
Proof.
  induction 1 as [|d ds Hd _ IH]; cbn; [lia|]. unfold digit in Hd. nia.
Qed.

Lemma value_le_pos ds : canon base ds -> ds <> [] -> 0 < value_le base ds.
Proof.
  induction ds as [|d ds IH]; [congruence|]. intros Hc _.
  destruct ds as [|d' ds].
  - cbn in *. lia.
  - destruct Hc as [Hd Hc]. specialize (IH Hc ltac:(discriminate)).
    unfold digit in Hd. cbn [value_le] in *. nia.
Qed.

Lemma fuel_step fuel n :
  0 < n < 2 ^ Z.of_nat (S fuel) -> 0 <= n / base < 2 ^ Z.of_nat fuel.
Proof.
  intros Hn. rewrite Nat2Z.inj_succ, Z.pow_succ_r in Hn by lia. split.
  - apply Z.div_pos; lia.
  - apply Z.div_lt_upper_bound; [lia|]. nia.
Qed.

Lemma value_le_digits_le fuel : forall n,
  0 <= n < 2 ^ Z.of_nat fuel ->
  value_le base (digits_le base fuel n) = n.
Proof.
  induction fuel as [|fuel IH]; intros n Hn.
  - cbn in *. lia.
  - cbn [digits_le]. destruct (Z.leb_spec n 0); [cbn; lia|].
    cbn [value_le]. rewrite IH by (apply fuel_step; lia).
    pose proof (Z.div_mod n base ltac:(lia)). lia.
Qed.

Lemma digits_le_canon fuel : forall n,
  0 <= n < 2 ^ Z.of_nat fuel -> canon base (digits_le base fuel n).
Proof.
  induction fuel as [|fuel IH]; intros n Hn; [exact I|].
  cbn [digits_le]. destruct (Z.leb_spec n 0); [exact I|].
  pose proof (fuel_step fuel n ltac:(lia)) as Hstep.
  pose proof (Z.mod_pos_bound n base ltac:(lia)) as Hmod.
  pose proof (Z.div_mod n base ltac:(lia)) as Hdm.
  specialize (IH _ Hstep).
  destruct (digits_le base fuel (n / base)) as [|d ds] eqn:E.
  - cbn. assert (H0 : n / base = 0).
    { destruct fuel; cbn in E.
      - cbn in Hstep. lia.
      - destruct (Z.leb_spec (n / base) 0); [lia | discriminate]. }
    rewrite H0 in Hdm. lia.
  - apply canon_cons; [discriminate|]. split; [exact Hmod | exact IH].
Qed.

Lemma digits_le_value_le ds : forall fuel,
  canon base ds -> value_le base ds < 2 ^ Z.of_nat fuel ->
  digits_le base fuel (value_le base ds) = ds.
Proof.
  induction ds as [|d ds IH]; intros fuel Hc Hfuel.
  - destruct fuel; reflexivity.
  - assert (Hpos : 0 < value_le base (d :: ds))
      by (apply value_le_pos; [exact Hc | discriminate]).
    destruct fuel as [|fuel];
      [change (Z.of_nat 0) with 0 in Hfuel; rewrite Z.pow_0_r in Hfuel; lia|].
    cbn [digits_le]. destruct (Z.leb_spec (value_le base (d :: ds)) 0); [lia|].
    assert (Hd : digit base d /\ canon base ds /\ 0 <= value_le base ds).
    { destruct ds as [|d' ds].
      - cbn in Hc. unfold digit. cbn. repeat split; lia.
      - destruct Hc as [Hd Hc]. split; [exact Hd|]. split; [exact Hc|].
        apply value_le_nonneg, canon_digit, Hc. }
    destruct Hd as (Hd & Hcs & Hv). unfold digit in Hd.
    cbn [value_le] in *.
    assert (Hdiv : (d + base * value_le base ds) / base = value_le base ds).
    { symmetry. apply Z.div_unique with (r := d); lia. }
    assert (Hmod : (d + base * value_le base ds) mod base = d).
    { symmetry. apply Z.mod_unique with (q := value_le base ds); lia. }
    rewrite Hdiv, Hmod. f_equal. apply IH; [exact Hcs|].
    rewrite <- Hdiv. apply fuel_step. lia.
Qed.

Lemma log2_fuel n : 0 <= n -> n < 2 ^ Z.of_nat (Z.to_nat (Z.succ (Z.log2 n))).
Proof.
  intros Hn. pose proof (Z.log2_nonneg n). rewrite Z2Nat.id by lia.
  destruct (Z.eq_dec n 0) as [->|]; [cbn; lia|].
  apply Z.log2_spec. lia.
Qed.

Lemma canon_snoc l h :
  Forall (digit base) l -> 0 < h < base -> canon base (l ++ [h])%list.
Proof.
  intros Hl Hh. induction Hl as [|d l Hd _ IH]; [exact Hh|].
  cbn [app]. apply canon_cons; [now destruct l | now split].
Qed.

Lemma canon_rev r : Forall (digit base) r -> headed r -> canon base (rev r).
Proof.
  intros Hr Hh. destruct r as [|h t]; [exact I|]. cbn [rev].
  inversion Hr as [|? ? Hd Ht]; subst. cbn in Hh. unfold digit in Hd.
  apply canon_snoc; [now apply Forall_rev | lia].
Qed.

Lemma canon_last ds : canon base ds -> headed (rev ds).
Proof.
  intros Hc. destruct (rev ds) as [|h t] eqn:E; [exact I|]. cbn.
  assert (ds = rev t ++ [h])%list as ->
    by (rewrite <- (rev_involutive ds), E; reflexivity).
  clear E. induction (rev t) as [|d l IH]; cbn in Hc; [lia|].
  apply IH. destruct (l ++ [h])%list eqn:E'; [now destruct l|]. apply Hc.
Qed.

Lemma value_digits n : 0 <= n -> value base (digits base n) = n.
Proof.
  intros Hn. unfold value, digits. rewrite rev_involutive.
  apply value_le_digits_le. split; [exact Hn | now apply log2_fuel].
Qed.

Lemma digits_headed n : 0 <= n -> headed (digits base n).
Proof.
  intros Hn. unfold digits. apply canon_last, digits_le_canon.
  split; [exact Hn | now apply log2_fuel].
Qed.

Lemma digits_digit n : 0 <= n -> Forall (digit base) (digits base n).
Proof.
  intros Hn. unfold digits. apply Forall_rev, canon_digit, digits_le_canon.
  split; [exact Hn | now apply log2_fuel].
Qed.

Lemma value_nonneg r : Forall (digit base) r -> 0 <= value base r.
Proof. intros Hr. apply value_le_nonneg. now apply Forall_rev. Qed.

Lemma digits_value r :
  Forall (digit base) r -> headed r -> digits base (value base r) = r.
Proof.
  intros Hr Hh. unfold digits, value.
  rewrite digits_le_value_le.
  - apply rev_involutive.
  - now apply canon_rev.
  - apply log2_fuel. now apply value_nonneg.
Qed.

End DigitFacts.

Section RebaseFacts.

Import Multiformats.

Lemma strip_zeros_spec ds :
  ds = (repeat 0 (fst (strip_zeros ds)) ++ snd (strip_zeros ds))%list
  /\ headed (snd (strip_zeros ds)).
Proof.
  induction ds as [|d ds IH]; [now split|].
  cbn [strip_zeros].
  destruct d as [|p|p]; try (split; [reflexivity | cbn; lia]).
  destruct (strip_zeros ds) as [z r]. cbn in *. destruct IH as [IH Hh].
  split; [now rewrite <- IH | exact Hh].
Qed.

Lemma strip_zeros_repeat z r :
  headed r -> strip_zeros (repeat 0 z ++ r) = (z, r).
Proof.
  intros Hh. induction z as [|z IH]; cbn [repeat app].
  - destruct r as [|h t]; [reflexivity|]. cbn in Hh.
    destruct h; [congruence | reflexivity | reflexivity].
  - cbn [strip_zeros]. now rewrite IH.
Qed.

Lemma Forall_app_inv_r {A} (P : A -> Prop) l1 l2 :
  Forall P (l1 ++ l2) -> Forall P l2.
Proof. intros H. now apply Forall_app in H. Qed.

Lemma rebase_digit from to ds :
  2 <= from -> 2 <= to -> Forall (digit from) ds ->
  Forall (digit to) (rebase from to ds).
Proof.
  intros Hfrom Hto Hds. unfold rebase.
  destruct (strip_zeros_spec ds) as [Hsplit Hh].
  destruct (strip_zeros ds) as [z r]. cbn [fst snd] in *.
  apply Forall_app. split.
  - apply Forall_forall. intros d Hd. apply repeat_spec in Hd. subst.
    unfold digit. lia.
  - apply digits_digit; [exact Hto|]. apply value_nonneg; [exact Hfrom|].
    rewrite Hsplit in Hds. eapply Forall_app_inv_r. exact Hds.
Qed.

Lemma rebase_round_trip from to ds :
  2 <= from -> 2 <= to -> Forall (digit from) ds ->
  rebase to from (rebase from to ds) = ds.
Proof.
  intros Hfrom Hto Hds. unfold rebase at 2.
  destruct (strip_zeros_spec ds) as [Hsplit Hh].
  destruct (strip_zeros ds) as [z r]. cbn [fst snd] in *.
  assert (Hr : Forall (digit from) r).
  { rewrite Hsplit in Hds. eapply Forall_app_inv_r. exact Hds. }
  pose proof (value_nonneg from Hfrom r Hr) as Hv.
  unfold rebase.
  rewrite strip_zeros_repeat by (apply digits_headed; assumption).
  rewrite value_digits by assumption.
  rewrite digits_value by assumption. now symmetry.
Qed.

End RebaseFacts.

(** Replace a closed number by its value. *)
Ltac evaluate t := let v := eval vm_compute in t in change t with v.

Section ParseFacts.

Import Multiformats.

Lemma varint_go_byte k : forall fuel n,
  (k <= fuel)%nat -> 0 <= n < 128 ^ Z.of_nat (S k) ->
  Forall byte (varint_go fuel n).
Proof.
  induction k as [|k IH]; intros fuel n Hfuel Hn.
  - change (128 ^ Z.of_nat 1) with 128 in Hn.
    destruct fuel; cbn [varint_go].
    + repeat constructor; unfold byte; lia.
    + destruct (Z.ltb_spec n 128); [|lia].
      repeat constructor; unfold byte; lia.
  - destruct fuel as [|fuel]; [lia|]. cbn [varint_go].
    destruct (Z.ltb_spec n 128).
    + repeat constructor; unfold byte; lia.
    + pose proof (Z.mod_pos_bound n 128 ltac:(lia)).
      constructor; [unfold byte; lia|].
      apply IH; [lia|].
      rewrite (Nat2Z.inj_succ (S k)), Z.pow_succ_r in Hn by lia. split.
      * apply Z.div_pos; lia.
      * apply Z.div_lt_upper_bound; lia.
Qed.

Lemma varint_byte n : 0 <= n < 2 ^ 53 -> Forall byte (varint n).
Proof.
  intros Hn. apply (varint_go_byte 7); [lia|].
  change (128 ^ Z.of_nat 8) with (2 ^ 56). lia.
Qed.

Lemma varint_decode_go_encode k : forall fuel n shift acc rest,
  (k <= fuel)%nat -> 0 <= n < 128 ^ Z.of_nat (S k) ->
  0 <= shift -> shift + 7 * Z.of_nat k <= 49 ->
  varint_decode_go (varint_go fuel n ++ rest) shift acc
  = Some (acc + n * 2 ^ shift, rest).
Proof.
  induction k as [|k IH]; intros fuel n shift acc rest Hfuel Hn Hs Hlimit.
  - change (128 ^ Z.of_nat 1) with 128 in Hn.
    assert (E : varint_go fuel n = [n]).
    { destruct fuel; cbn [varint_go]; [reflexivity|].
      destruct (Z.ltb_spec n 128); [reflexivity | lia]. }
    rewrite E. cbn [app varint_decode_go].
    destruct (Z.ltb_spec 49 shift); [lia|].
    destruct (Z.ltb_spec n 128); [|lia].
    now rewrite Z.mod_small by lia.
  - destruct fuel as [|fuel]; [lia|]. cbn [varint_go].
    destruct (Z.ltb_spec n 128) as [Hsmall|Hbig].
    + cbn [app varint_decode_go].
      destruct (Z.ltb_spec 49 shift); [lia|].
      destruct (Z.ltb_spec n 128); [|lia].
      now rewrite Z.mod_small by lia.
    + pose proof (Z.mod_pos_bound n 128 ltac:(lia)) as Hmod.
      pose proof (Z.div_mod n 128 ltac:(lia)) as Hdm.
      cbn [app varint_decode_go].
      destruct (Z.ltb_spec 49 shift); [lia|].
      destruct (Z.ltb_spec (128 + n mod 128) 128); [lia|].
      rewrite IH.
      2: lia. 3: lia. 3: lia.
      * f_equal. f_equal.
        replace ((128 + n mod 128) mod 128) with (n mod 128)
          by (apply Z.mod_unique with (q := 1); lia).
        rewrite Z.pow_add_r by lia. change (2 ^ 7) with 128.
        rewrite Hdm at 3. ring.
      * rewrite (Nat2Z.inj_succ (S k)), Z.pow_succ_r in Hn by lia. split.
        -- apply Z.div_pos; lia.
        -- apply Z.div_lt_upper_bound; lia.
Qed.

Lemma varint_decode_encode n rest :
  0 <= n < 2 ^ 53 -> varint_decode (varint n ++ rest) = Some (n, rest).
Proof.
  intros Hn. unfold varint_decode, varint.
  rewrite (varint_decode_go_encode 7); [f_equal; f_equal; lia|lia| |lia|lia].
  change (128 ^ Z.of_nat 8) with (2 ^ 56). lia.
Qed.

Lemma multihash_decode_create hash_code payload :
  0 <= hash_code < 2 ^ 53 ->
  Z.of_nat (List.length payload) < 2 ^ 53 ->
  multihash_decode (digest_bytes (Digest_create hash_code payload))
  = Some (Digest_create hash_code payload).
Proof.
  intros Hcode Hsize. unfold multihash_decode. cbn [digest_bytes Digest_create].
  rewrite varint_decode_encode by exact Hcode.
  rewrite varint_decode_encode by lia.
  now rewrite Z.eqb_refl.
Qed.

Lemma digest_bytes_byte hash_code payload :
  0 <= hash_code < 2 ^ 53 ->
  Z.of_nat (List.length payload) < 2 ^ 53 ->
  Forall byte payload ->
  Forall byte (digest_bytes (Digest_create hash_code payload)).
Proof.
  intros Hcode Hsize Hpayload. cbn [digest_bytes Digest_create].
  apply Forall_app. split; [now apply varint_byte|].
  apply Forall_app. split; [apply varint_byte; lia | exact Hpayload].
Qed.

(** Base58 *)

Lemma base58_round_trip bytes :
  Forall byte bytes ->
  basex_decode base58_alphabet (base58btc_digits bytes) = Some bytes.
Proof.
  intros Hbytes. unfold basex_decode, base58btc_digits.
  change (Z.of_nat (String.length base58_alphabet)) with 58.
  rewrite indices_text.
  - cbn [option_map]. f_equal.
    apply (rebase_round_trip 256 58); [lia | lia | exact Hbytes].
  - exact base58_alphabet_ok.
  - change (Z.of_nat (String.length base58_alphabet)) with 58.
    apply (rebase_digit 256 58); [lia | lia | exact Hbytes].
Qed.

Lemma digits_le_zero base fuel : digits_le base fuel 0 = [].
Proof. now destruct fuel. Qed.

Lemma digits_le_last base k : forall fuel n,
  2 <= base ->
  base ^ Z.of_nat k <= n < base ^ Z.of_nat (S k) ->
  n < 2 ^ Z.of_nat fuel ->
  exists l, digits_le base fuel n = (l ++ [n / base ^ Z.of_nat k])%list.
Proof.
  induction k as [|k IH]; intros fuel n Hbase Hn Hfuel.
  - change (base ^ Z.of_nat 0) with 1 in *.
    rewrite Z.pow_1_r in Hn. rewrite Z.div_1_r.
    destruct fuel as [|fuel];
      [change (Z.of_nat 0) with 0 in Hfuel; rewrite Z.pow_0_r in Hfuel; lia|].
    cbn [digits_le]. destruct (Z.leb_spec n 0); [lia|].
    rewrite Z.div_small, Z.mod_small, digits_le_zero by lia. now exists [].
  - assert (Hpow : 0 < base ^ Z.of_nat k) by (apply Z.pow_pos_nonneg; lia).
    rewrite !Nat2Z.inj_succ, !Z.pow_succ_r in Hn by lia.
    rewrite Nat2Z.inj_succ, Z.pow_succ_r by lia.
    destruct fuel as [|fuel];
      [change (Z.of_nat 0) with 0 in Hfuel; rewrite Z.pow_0_r in Hfuel; nia|].
    cbn [digits_le]. destruct (Z.leb_spec n 0); [nia|].
    destruct (IH fuel (n / base) Hbase) as [l Hl].
    + rewrite Nat2Z.inj_succ, Z.pow_succ_r by lia. split.
      * apply Z.div_le_lower_bound; lia.
      * apply Z.div_lt_upper_bound; lia.
    + apply (fuel_step base Hbase). lia.
    + exists (n mod base :: l). rewrite Hl. cbn [app].
      f_equal. f_equal. f_equal.
      rewrite Z.div_div by lia. reflexivity.
Qed.

Lemma value_le_app base l1 l2 :
  value_le base (l1 ++ l2)
  = value_le base l1 + base ^ Z.of_nat (List.length l1) * value_le base l2.
Proof.
  induction l1 as [|d l1 IH]; cbn [app value_le List.length].
  - change (Z.of_nat 0) with 0. rewrite Z.pow_0_r. lia.
  - rewrite IH, Nat2Z.inj_succ, Z.pow_succ_r by lia. ring.
Qed.

Lemma value_le_bound base ds :
  2 <= base -> Forall (digit base) ds ->
  0 <= value_le base ds < base ^ Z.of_nat (List.length ds).
Proof.
  intros Hbase. induction 1 as [|d ds Hd _ IH]; cbn [value_le List.length].
  - change (Z.of_nat 0) with 0. rewrite Z.pow_0_r. lia.
  - rewrite Nat2Z.inj_succ, Z.pow_succ_r by lia. unfold digit in Hd. nia.
Qed.

(** The text of a SHA-256 multihash in base58btc starts with [Q]. *)
Lemma sha256_multihash_text payload :
  Forall byte payload -> List.length payload = 32%nat ->
  exists rest, base58btc_digits (0x12 :: 32 :: payload) = String "Q" rest.
Proof.
  intros Hpayload Hlen. unfold base58btc_digits, rebase.
  change (strip_zeros (0x12 :: 32 :: payload)) with (O, 0x12 :: 32 :: payload).
  cbn [repeat app]. unfold digits, value. cbn [rev].
  rewrite <- app_assoc. cbn [app]. rewrite value_le_app.
  rewrite length_rev, Hlen. cbn [value_le].
  pose proof (value_le_bound 256 (rev payload) ltac:(lia)
                (Forall_rev Hpayload)) as Hv.
  rewrite length_rev, Hlen in Hv.
  set (v := value_le 256 (rev payload)) in *.
  set (n := v + 256 ^ Z.of_nat 32 * (32 + 256 * (18 + 256 * 0))).
  assert (Hn : 58 ^ Z.of_nat 45 <= n < 58 ^ Z.of_nat 46).
  { subst n. clearbody v. revert Hv.
    evaluate (256 ^ Z.of_nat 32). evaluate (58 ^ Z.of_nat 45).
    evaluate (58 ^ Z.of_nat 46). lia. }
  destruct (digits_le_last 58 45 (Z.to_nat (Z.succ (Z.log2 n))) n
              ltac:(lia) Hn (log2_fuel n ltac:(lia))) as [l Hl].
  rewrite Hl, rev_app_distr. cbn [rev app text].
  assert (Hq : n / 58 ^ Z.of_nat 45 = 23).
  { symmetry. apply Z.div_unique with (r := n - 23 * 58 ^ Z.of_nat 45); [|lia].
    left. subst n. clearbody v. revert Hv.
    evaluate (256 ^ Z.of_nat 32). evaluate (58 ^ Z.of_nat 45). lia. }
  rewrite Hq. eexists. reflexivity.
Qed.

End ParseFacts.

Section IdentifierClaims.

Import Multiformats.

Lemma parse_toString c : well_formed c -> CID_parse (CID_toString c) = Some c.
Proof.
  intros (version & code & hash_code & payload
          & Hcreate & Hcode & Hhash & Hsize & Hpayload & Hv0).
  pose proof (digest_bytes_byte _ _ Hhash Hsize Hpayload) as Hbytes.
  pose proof (multihash_decode_create _ _ Hhash Hsize) as Hmh.
  assert (E : hash_code = 0x12 -> List.length payload = 32%nat ->
              digest_bytes (Digest_create hash_code payload)
              = 0x12 :: 32 :: payload).
  { intros -> Hlen. cbn [digest_bytes Digest_create]. now rewrite Hlen. }
  remember (Digest_create hash_code payload) as d eqn:Hd.
  unfold CID_create in Hcreate.
  destruct (Z.eqb_spec version 0) as [->|Hnot0].
  - destruct (Z.eqb_spec code DAG_PB_CODE) as [->|]; [|discriminate].
    injection Hcreate as <-. destruct (Hv0 eq_refl) as [-> Hlen].
    specialize (E eq_refl Hlen).
    unfold CID_toString. cbn [cid_version cid_bytes Z.eqb].
    destruct (sha256_multihash_text payload Hpayload Hlen) as [rest Htext].
    pose proof (base58_round_trip _ Hbytes) as Hround.
    rewrite E, Htext in Hround. rewrite E at 1. rewrite Htext.
    unfold CID_parse. change (Ascii.eqb "Q" "Q") with true. cbv iota.
    rewrite Hround. unfold CID_decode.
    change (varint_decode (0x12 :: 32 :: payload))
      with (Some (18, 32 :: payload)).
    cbv iota. change (18 =? 18) with true. cbv iota.
    rewrite <- E, Hmh. reflexivity.
  - destruct (Z.eqb_spec version 1) as [->|]; [|discriminate].
    injection Hcreate as <-.
    unfold CID_toString. cbn [cid_version cid_bytes].
    change (1 =? 0) with false.
    cbv iota. unfold base32_encode, CID_parse.
    change (Ascii.eqb "b" "Q") with false.
    change (Ascii.eqb "b" "z") with false.
    change (Ascii.eqb "b" "b") with true. cbv iota.
    rewrite base32_round_trip.
    + unfold prefixed, CID_decode.
      change (varint_decode (1 :: varint code ++ digest_bytes d))
        with (Some (1, varint code ++ digest_bytes d)%list).
      cbv iota. change (1 =? 18) with false. cbv iota.
      rewrite varint_decode_encode by exact Hcode.
      rewrite Hmh. reflexivity.
    + constructor; [unfold byte; lia|].
      apply Forall_app. split; [now apply varint_byte | exact Hbytes].
Qed.

(** C9 - Round trip.  A valid canonical identifier string, the string form
    of a well-formed identifier, parses, and the identifier parsed has that
    very string as its string form; parsing the string form of a
    well-formed identifier gives the identifier back; so two well-formed
    identifiers are equal exactly when their string forms are. *)
Theorem identifier_round_trip :
  (forall s, canonical_string s ->
             option_map CID_toString (CID_parse s) = Some s)
  /\ (forall c, well_formed c -> CID_parse (CID_toString c) = Some c)
  /\ (forall c1 c2, well_formed c1 -> well_formed c2 ->
                    (CID_toString c1 = CID_toString c2 <-> c1 = c2)).
Proof.
  split; [|split].
  - intros s (c & Hc & ->). now rewrite (parse_toString c Hc).
  - exact parse_toString.
  - intros c1 c2 H1 H2. split; [|now intros ->].
    intros E. apply parse_toString in H1, H2. congruence.
Qed.

(** The identifier derived from a topic is well formed, so its string
    form parses back to it. *)
Lemma derived_well_formed (topic : string) :
  exists c, KeyDerivation.pubsubTopicToDhtKeyCid topic = Some c
            /\ well_formed c.
Proof.
  eexists. split; [apply derived_identifier|].
  exists 1, 0x55, 0x12,
    (SHA256.array (KeyDerivation.TextEncoder_encode ("floodsub:" ++ topic))).
  split; [apply derived_identifier|].
  split; [lia|]. split; [lia|]. split; [rewrite sha256_length; lia|].
  split; [apply sha256_range | discriminate].
Qed.

End IdentifierClaims.

Section DerivationClaim.

Import Multiformats KeyDerivation.

(** C7 - Key derivation.  For every topic, [pubsubTopicToDhtKeyCid] builds
    the identifier of version 1 and content type 0x55 around the digest of
    code 0x12 and size 32 that carries the SHA-256 hash of the bytes 66 6c
    6f 6f 64 73 75 62 3a ("floodsub:") followed by the bytes of the topic;
    the hash is 32 bytes long; the string derived is the string of the
    specification's steps, the multibase base32 text of the bytes 1, 0x55,
    0x12, 32 and the hash, and it parses back to that identifier.  The
    bytes hashed determine the topic.  The hash is SHA-256 on the test
    vectors of FIPS 180-4 for the message "abc", for the empty message and
    for the message of two blocks, and the strings derived from the default
    topic and from the empty topic are the known ones. *)
Theorem key_derivation :
  (forall topic : string,
      let hash := SHA256.array (hashed_message topic) in
      pubsubTopicToDhtKeyCid topic = Some (spec_identifier hash)
      /\ List.length hash = 32%nat
      /\ Forall (fun b => 0 <= b < 256) hash
      /\ derive topic = Some (spec_derive topic)
      /\ spec_derive topic = base32_encode (1 :: 0x55 :: 0x12 :: 32 :: hash)
      /\ CID_parse (spec_derive topic) = Some (spec_identifier hash))
  /\ (forall t1 t2 : string, hashed_message t1 = hashed_message t2 -> t1 = t2)
  /\ hashed_message "a/b" = [0x66; 0x6c; 0x6f; 0x6f; 0x64; 0x73; 0x75; 0x62;
                             0x3a; 0x61; 0x2f; 0x62]
  /\ SHA256.array (utf8 "abc")
     = [0xba; 0x78; 0x16; 0xbf; 0x8f; 0x01; 0xcf; 0xea;
        0x41; 0x41; 0x40; 0xde; 0x5d; 0xae; 0x22; 0x23;
        0xb0; 0x03; 0x61; 0xa3; 0x96; 0x17; 0x7a; 0x9c;
        0xb4; 0x10; 0xff; 0x61; 0xf2; 0x00; 0x15; 0xad]
  /\ SHA256.array []
     = [0xe3; 0xb0; 0xc4; 0x42; 0x98; 0xfc; 0x1c; 0x14;
        0x9a; 0xfb; 0xf4; 0xc8; 0x99; 0x6f; 0xb9; 0x24;
        0x27; 0xae; 0x41; 0xe4; 0x64; 0x9b; 0x93; 0x4c;
        0xa4; 0x95; 0x99; 0x1b; 0x78; 0x52; 0xb8; 0x55]
  /\ SHA256.array
       (utf8 "abcdbcdecdefdefgefghfghighijhijkijkljklmklmnlmnomnopnopq")
     = [0x24; 0x8d; 0x6a; 0x61; 0xd2; 0x06; 0x38; 0xb8;
        0xe5; 0xc0; 0x26; 0x93; 0x0c; 0x3e; 0x60; 0x39;
        0xa3; 0x3c; 0xe4; 0x59; 0x64; 0xff; 0x21; 0x67;
        0xf6; 0xec; 0xed; 0xd4; 0x19; 0xdb; 0x06; 0xc1]
  /\ CID_toString (spec_identifier (SHA256.array []))
     = "bafkreihdwdcefgh4dqkjv67uzcmw7ojee6xedzdetojuzjevtenxquvyku"
  /\ derive DEFAULT_PUBSUB_TOPIC
     = Some "bafkreia36n7k4rrs2wndyn4enw7ttsfajplrrdczaktuvvrebtpmcf6rwa"
  /\ derive ""
     = Some "bafkreidtv64uzzgske5vomu6klunnln5soqbscrlzyxhxxp55n3l6elzla".
Proof.
  split; [|split; [exact hashed_message_inj|]].
  - intros topic hash.
    pose proof (derived_identifier topic) as Hcid.
    rewrite encode_message in Hcid. fold hash in Hcid.
    split; [exact Hcid|].
    split; [apply sha256_length|]. split; [apply sha256_range|].
    split; [unfold derive; now rewrite Hcid|].
    split; [reflexivity|].
    unfold spec_derive. fold hash. apply parse_toString.
    exists 1, 0x55, 0x12, hash.
    split; [unfold hash; rewrite <- encode_message; apply derived_identifier|].
    split; [lia|]. split; [lia|].
    split; [unfold hash; rewrite sha256_length; lia|].
    split; [apply sha256_range | discriminate].
  - repeat split; vm_compute; reflexivity.
Qed.

End DerivationClaim.

(** With this parser an announcement of a well-formed identifier always
    succeeds, and files the record under the string form of the
    identifier. *)
Lemma announce_well_formed URL (c : Multiformats.CID) r now s :
  Multiformats.well_formed c ->
  Router.announceProvider (P := multiformats_platform URL) c r now s
  = (JS.Normal tt,
     Router.with_providers s
       (JSMap.set (Multiformats.CID_toString c)
          {| Router.peerRecord := r;
             Router.expiresAt := now + Router.PROVIDER_TTL_MS |}
          (Router.providersByCid s))).
Proof.
  intros Hc. unfold Router.announceProvider.
  cbn [CID_parse CID_toString multiformats_platform].
  now rewrite (parse_toString c Hc).
Qed.

(** ** The router under traffic *)

Section RouterTraffic.

Import JS Router Traffic.

Context {P : Platform}.

Implicit Types (s : state) (req : IncomingMessage) (k : string).

(** Every way the handler can end. *)
Lemma handler_outcomes req now_check now_evict s :
  let out := fst (handler req now_check now_evict s) in
  (out = Throw TypeError /\ is_provider_lookup req = false)
  \/ (out = Normal (json 404 (message "not found"))
      /\ is_provider_lookup req = false)
  \/ (out = Throw URIError
      /\ is_provider_lookup req = true /\ requested_key req = None)
  \/ (out = Normal (json 422 (Providers []))
      /\ is_provider_lookup req = true /\ requested_key req = None)
  \/ (exists k,
        requested_key req = Some k
        /\ out = Normal (json 404 (Providers []))
        /\ (JSMap.get k (providersByCid s) = None
            \/ exists e, JSMap.get k (providersByCid s) = Some e
                         /\ expiresAt e <= now_check))
  \/ (exists k e,
        requested_key req = Some k
        /\ JSMap.get k (providersByCid s) = Some e
        /\ now_check < expiresAt e
        /\ out = Normal (json 200 (Providers [peerRecord e]))).
Proof.
  unfold handler, is_provider_lookup, requested_key, normalize.
  destruct (URL_pathname _ _) as [pathname|]; [|now left].
  destruct (_ && _); [|right; now left].
  destruct (decodeURIComponent _) as [requestedCid|];
    [|right; right; now left].
  destruct (CID_parse requestedCid) as [c|];
    [|right; right; right; now left].
  cbn [bump providersByCid option_map].
  destruct (JSMap.get _ _) as [e|] eqn:Hget.
  - destruct (Z.leb_spec (expiresAt e) now_check).
    + right; right; right; right; left. exists (CID_toString c).
      split; [reflexivity|]. split; [reflexivity|]. right. now exists e.
    + right; right; right; right; right. exists (CID_toString c), e.
      cbn. auto.
  - right; right; right; right; left. exists (CID_toString c).
    split; [reflexivity|]. split; [reflexivity|]. now left.
Qed.

(** X1 - Every answer is JSON.  Whatever the request, when the handler
    answers it sets the content type [application/json] and the status 200,
    404 or 422; a [message] body is "not found", with status 404, for a
    request that is no provider lookup; a [Providers] body answers a
    provider lookup, with one record under status 200 and none otherwise. *)
Theorem responses_are_json req now_check now_evict s resp :
  fst (handler req now_check now_evict s) = Normal resp ->
  contentType resp = "application/json"
  /\ (statusCode resp = 200 \/ statusCode resp = 404 \/ statusCode resp = 422)
  /\ (forall m, body resp = message m ->
                m = "not found" /\ statusCode resp = 404
                /\ is_provider_lookup req = false)
  /\ (forall l, body resp = Providers l ->
                is_provider_lookup req = true
                /\ (statusCode resp = 200 -> List.length l = 1%nat)
                /\ (statusCode resp <> 200 -> l = [])).
Proof.
  intros Hout.
  destruct (handler_outcomes req now_check now_evict s)
    as [[H _]|[[H Hl]|[[H _]|[[H [Hl _]]|[(k & Hk & H & _)|Hit]]]]];
    [| | | | |destruct Hit as (k & e & Hk & _ & _ & H)];
    cbv zeta in H; rewrite H in Hout; try discriminate;
    injection Hout as <-; cbn.
  - split; [reflexivity|]. split; [auto|]. split.
    + intros m [= <-]. auto.
    + intros l [=].
  - split; [reflexivity|]. split; [auto|]. split.
    + intros m [=].
    + intros l [= <-]. split; [exact Hl|]. split; [discriminate | reflexivity].
  - apply requested_key_lookup in Hk.
    split; [reflexivity|]. split; [auto|]. split.
    + intros m [=].
    + intros l [= <-]. split; [exact Hk|]. split; [discriminate | reflexivity].
  - apply requested_key_lookup in Hk.
    split; [reflexivity|]. split; [auto|]. split.
    + intros m [=].
    + intros l [= <-]. split; [exact Hk|]. split; [reflexivity | congruence].
Qed.

(** X2 - What an answer tells.  A 200 carries the record of the entry
    stored under the key the request reads, and that entry had not expired
    at the first clock reading; a 422 means the request was a provider
    lookup whose identifier gave no key; a 404 with an empty [Providers]
    means the key was read and had no entry or an expired one. *)
Theorem served_record_is_live req now_check now_evict s resp :
  fst (handler req now_check now_evict s) = Normal resp ->
  (statusCode resp = 200 ->
   exists k e,
     requested_key req = Some k
     /\ JSMap.get k (providersByCid s) = Some e
     /\ now_check < expiresAt e
     /\ body resp = Providers [peerRecord e])
  /\ (statusCode resp = 422 ->
      is_provider_lookup req = true /\ requested_key req = None)
  /\ (body resp = Providers [] -> statusCode resp = 404 ->
      exists k,
        requested_key req = Some k
        /\ forall e, JSMap.get k (providersByCid s) = Some e ->
                     expiresAt e <= now_check).
Proof.
  intros Hout.
  destruct (handler_outcomes req now_check now_evict s)
    as [[H _]|[[H Hl]|[[H _]|[[H Hl]|[(k & Hk & H & Hc)|Hit]]]]];
    [| | | | |destruct Hit as (k & e & Hk & Hget & Hlive & H)];
    cbv zeta in H; rewrite H in Hout; try discriminate;
    injection Hout as <-; cbn.
  - repeat split; discriminate.
  - split; [discriminate|]. split; [intros _; exact Hl | discriminate].
  - split; [discriminate|]. split; [discriminate|]. intros _ _.
    exists k. split; [exact Hk|]. intros e He.
    destruct Hc as [Hc|(e' & Hc & Hexp)]; congruence.
  - split; [|split; discriminate]. intros _. now exists k, e.
Qed.

(** X3 - Requests never write.  After any list of requests served from a
    reachable state, every key has the entry it had or none; no key was
    added, and the directory has not grown. *)
Lemma length_delete {V} (m : JSMap.t V) k :
  (List.length (JSMap.delete k m) <= List.length m
   <= S (List.length (JSMap.delete k m)))%nat.
Proof.
  induction m as [|[k0 v0] m IH]; cbn; [lia|].
  destruct (String.eqb k0 k); cbn; lia.
Qed.

Lemma length_set {V} (m : JSMap.t V) k v :
  List.length (JSMap.set k v m)
  = match JSMap.get k m with
    | Some _ => List.length m
    | None => S (List.length m)
    end.
Proof.
  induction m as [|[k0 v0] m IH]; cbn; [reflexivity|].
  destruct (String.eqb k0 k); cbn; [reflexivity|].
  rewrite IH. now destruct (JSMap.get k m).
Qed.

Lemma handler_get req now_check now_evict s k :
  NoDup (JSMap.keys (providersByCid s)) ->
  JSMap.get k (providersByCid (snd (handler req now_check now_evict s)))
  = JSMap.get k (providersByCid s)
  \/ JSMap.get k (providersByCid (snd (handler req now_check now_evict s)))
     = None.
Proof.
  intros Hnd.
  destruct (handler_frame req now_check now_evict s)
    as [->|(k' & e & _ & _ & _ & _ & ->)]; [now left|].
  destruct (String.eqb_spec k k') as [->|Hne].
  - right. now apply get_delete_same.
  - left. now apply get_delete_other.
Qed.

Lemma handler_length req now_check now_evict s :
  (List.length (providersByCid (snd (handler req now_check now_evict s)))
   <= List.length (providersByCid s))%nat.
Proof.
  destruct (handler_frame req now_check now_evict s)
    as [->|(k' & e & _ & _ & _ & _ & ->)]; [lia|].
  apply length_delete.
Qed.

Theorem requests_never_write reqs : forall s,
  reachable s ->
  (forall k,
      JSMap.get k (providersByCid (serve reqs s))
      = JSMap.get k (providersByCid s)
      \/ JSMap.get k (providersByCid (serve reqs s)) = None)
  /\ (forall k, In k (JSMap.keys (providersByCid (serve reqs s))) ->
                In k (JSMap.keys (providersByCid s)))
  /\ (List.length (providersByCid (serve reqs s))
      <= List.length (providersByCid s))%nat.
Proof.
  induction reqs as [|[[req n1] n2] reqs IH]; intros s Hs; cbn [serve].
  - split; [now left|]. split; [auto | lia].
  - assert (Hs' : reachable (snd (handler req n1 n2 s)))
      by (eapply reachable_step; [exact Hs | constructor]).
    destruct (IH _ Hs') as (Hget & Hkeys & Hlen). split; [|split].
    + intros k. destruct (Hget k) as [E|E]; [|now right].
      rewrite E. apply handler_get. now apply reachable_NoDup.
    + intros k Hin. eapply handler_keys. apply Hkeys, Hin.
    + pose proof (handler_length req n1 n2 s). lia.
Qed.

(** X4 - A live entry is never evicted.  Requests whose first clock
    reading is before the expiry of an entry leave that entry where it is,
    whatever they ask for. *)
Theorem live_entry_survives reqs : forall s k e,
  JSMap.get k (providersByCid s) = Some e ->
  (forall x, In x reqs -> snd (fst x) < expiresAt e) ->
  JSMap.get k (providersByCid (serve reqs s)) = Some e.
Proof.
  induction reqs as [|[[req n1] n2] reqs IH]; intros s k e Hget Hlive;
    cbn [serve]; [exact Hget|].
  apply IH; [|intros x Hx; apply Hlive; now right].
  destruct (handler_frame req n1 n2 s)
    as [->|(k' & e' & _ & Hget' & Hexp & _ & ->)]; [exact Hget|].
  destruct (String.eqb_spec k k') as [->|Hne].
  - rewrite Hget in Hget'. injection Hget' as <-.
    specialize (Hlive (req, n1, n2) (or_introl eq_refl)). cbn in Hlive. lia.
  - now rewrite get_delete_other.
Qed.

(** X5 - Asking twice.  In a reachable state, the same request served a
    second time with the same clock readings gets the answer of the first
    time, and leaves the directory as the first left it. *)
Lemma lookup_twice m k now_check now_evict :
  NoDup (JSMap.keys m) ->
  lookup k now_check now_evict (snd (lookup k now_check now_evict m))
  = (fst (lookup k now_check now_evict m),
     snd (lookup k now_check now_evict m)).
Proof.
  intros Hnd. unfold lookup at 2 3 4.
  destruct (JSMap.get k m) as [e|] eqn:Hget; cbn [fst snd].
  - destruct (Z.leb_spec (expiresAt e) now_check); cbn [fst snd].
    + destruct (Z.leb_spec (expiresAt e) now_evict).
      * apply lookup_absent. now apply get_delete_same.
      * unfold lookup. rewrite Hget.
        destruct (Z.leb_spec (expiresAt e) now_check); [|lia].
        destruct (Z.leb_spec (expiresAt e) now_evict); [lia | reflexivity].
    + apply lookup_live; [exact Hget | lia].
  - now apply lookup_absent.
Qed.

Lemma requested_key_None req now_check now_evict s :
  requested_key req = None ->
  providersByCid (snd (handler req now_check now_evict s)) = providersByCid s
  /\ forall s', fst (handler req now_check now_evict s')
                = fst (handler req now_check now_evict s).
Proof.
  unfold requested_key, handler, normalize.
  destruct (URL_pathname _ _) as [pathname|]; [|now split].
  destruct (_ && _); [|now split].
  destruct (decodeURIComponent _) as [requestedCid|]; [|now split].
  destruct (CID_parse requestedCid) as [c|]; [discriminate | now split].
Qed.

Theorem repeated_request req now_check now_evict s :
  reachable s ->
  let s1 := snd (handler req now_check now_evict s) in
  fst (handler req now_check now_evict s1)
  = fst (handler req now_check now_evict s)
  /\ providersByCid (snd (handler req now_check now_evict s1))
     = providersByCid s1.
Proof.
  intros Hs s1. subst s1. pose proof (reachable_NoDup _ Hs) as Hnd.
  destruct (requested_key req) as [k|] eqn:Hkey.
  - rewrite !(handler_requested_key _ _ _ _ _ Hkey).
    cbn [fst snd providersByCid with_providers bump].
    now rewrite lookup_twice.
  - destruct (requested_key_None req now_check now_evict s Hkey) as [_ Hout].
    split; [apply Hout|].
    apply (requested_key_None req now_check now_evict _ Hkey).
Qed.



(** X7 - What an announcement adds.  A successful announcement keeps every
    key, has its own key present afterwards, and makes the directory one
    entry longer when the key was new and no longer when it was there. *)
Theorem announce_size c r now s s' :
  announceProvider c r now s = (Normal tt, s') ->
  exists k,
    normalize (CID_toString c) = Some k
    /\ (forall k', In k' (JSMap.keys (providersByCid s)) ->
                   In k' (JSMap.keys (providersByCid s')))
    /\ In k (JSMap.keys (providersByCid s'))
    /\ List.length (providersByCid s')
       = match JSMap.get k (providersByCid s) with
         | Some _ => List.length (providersByCid s)
         | None => S (List.length (providersByCid s))
         end.
Proof.
  intros Hann. destruct (announce_Normal _ _ _ _ _ Hann) as (c' & Hparse & ->).
  exists (CID_toString c'). cbn [providersByCid with_providers].
  split; [unfold normalize; now rewrite Hparse|]. split; [|split].
  - intros k' Hin. apply keys_set. now right.
  - apply keys_set. now left.
  - apply length_set.
Qed.

End RouterTraffic.

(** ** Paths and their decoding *)

Section PathFacts.

Import JS Router Traffic.

Lemma Decode_plain s : plain s -> decodeURIComponent s = Some s.
Proof.
  unfold decodeURIComponent.
  induction s as [|c s IH]; cbn [plain Decode]; [reflexivity|].
  intros [Hc Hs]. destruct (Ascii.eqb_spec c "%"); [contradiction|].
  now rewrite IH.
Qed.

Lemma Decode_percent_tail s : forall ph seq, Decode ph seq (s ++ "%") = None.
Proof.
  induction s as [|c s IH]; intros ph seq.
  - cbn [append Decode]. destruct ph; reflexivity.
  - cbn [append Decode]. destruct ph.
    + destruct (Ascii.eqb c "%"); [apply IH|].
      destruct seq; [reflexivity|]. now rewrite IH.
    + destruct (hex_digit c); [apply IH | reflexivity].
    + destruct (hex_digit c) as [lo|]; [|reflexivity].
      destruct seq as [[j Octets]|].
      * destruct j as [|[|j]]; [reflexivity| |apply IH].
        destruct (valid_utf8 _); [|reflexivity]. now rewrite IH.
      * destruct (leading_ones (16 * hi + lo)) as [|[|[|[|[|n]]]]];
          try reflexivity; try apply IH.
        now rewrite IH.
Qed.

Lemma startsWith_append p s : startsWith (p ++ s) p = true.
Proof.
  unfold startsWith. induction p as [|a p IH]; cbn; [now destruct s|].
  destruct (ascii_dec a a); [exact IH | congruence].
Qed.

Lemma length_append p s :
  String.length (p ++ s) = (String.length p + String.length s)%nat.
Proof. induction p as [|a p IH]; cbn; [reflexivity | now rewrite IH]. Qed.

Lemma substring_all s : substring 0 (String.length s) s = s.
Proof. induction s as [|a s IH]; cbn; [reflexivity | now rewrite IH]. Qed.

Lemma slice_append p s : slice (p ++ s) (String.length p) = s.
Proof.
  unfold slice. rewrite length_append.
  replace (String.length p + String.length s - String.length p)%nat
    with (String.length s) by lia.
  induction p as [|a p IH]; cbn [append String.length substring].
  - apply substring_all.
  - exact IH.
Qed.

Context {P : Platform}.

Lemma providers_path_route req segment :
  URL_pathname (url_or_root req) (baseUrl req)
  = Some (providers_path segment) ->
  method req = "GET" ->
  is_provider_lookup req = true
  /\ requested_key req
     = match decodeURIComponent segment with
       | Some requestedCid => normalize requestedCid
       | None => None
       end.
Proof.
  intros Hurl Hget. unfold is_provider_lookup, requested_key.
  rewrite Hurl, Hget. unfold providers_path.
  rewrite startsWith_append, slice_append. now split.
Qed.

(** X8 - A trailing percent sign.  Whatever precedes it, a path segment
    that ends with a percent sign is rejected by [decodeURIComponent], and a
    GET for it on the providers route makes the handler throw [URIError]
    after counting the request. *)
Theorem percent_tail_throws req segment now_check now_evict s :
  URL_pathname (url_or_root req) (baseUrl req)
  = Some (providers_path (segment ++ "%")) ->
  method req = "GET" ->
  decodeURIComponent (segment ++ "%") = None
  /\ handler req now_check now_evict s = (Throw URIError, bump s).
Proof.
  intros Hurl Hget.
  assert (Hdec : decodeURIComponent (segment ++ "%") = None)
    by apply Decode_percent_tail.
  split; [exact Hdec|]. unfold handler. rewrite Hurl, Hget.
  unfold providers_path. rewrite startsWith_append, slice_append, Hdec.
  reflexivity.
Qed.

(** X9 - A segment without percent sign.  It decodes to itself: the
    handler parses the very segment of the path, reads the key it
    normalises to, answers 422 when it does not parse and the directory
    lookup of its key when it does. *)
Theorem plain_segment_key req segment now_check now_evict s :
  URL_pathname (url_or_root req) (baseUrl req)
  = Some (providers_path segment) ->
  method req = "GET" ->
  plain segment ->
  decodeURIComponent segment = Some segment
  /\ requested_key req = normalize segment
  /\ (CID_parse segment = None ->
      fst (handler req now_check now_evict s)
      = Normal (json 422 (Providers [])))
  /\ (forall c, CID_parse segment = Some c ->
        fst (handler req now_check now_evict s)
        = Normal
            match fst (lookup (CID_toString c) now_check now_evict
                              (providersByCid s)) with
            | Some r => json 200 (Providers [r])
            | None => json 404 (Providers [])
            end).
Proof.
  intros Hurl Hget Hplain.
  pose proof (Decode_plain segment Hplain) as Hdec.
  destruct (providers_path_route req segment Hurl Hget) as [Hroute Hkey].
  rewrite Hdec in Hkey. split; [exact Hdec|]. split; [exact Hkey|]. split.
  - intros Hparse. unfold handler. rewrite Hurl, Hget. unfold providers_path.
    rewrite startsWith_append, slice_append, Hdec, Hparse. reflexivity.
  - intros c Hparse. unfold normalize in Hkey. rewrite Hparse in Hkey.
    now rewrite (handler_requested_key _ _ _ _ _ Hkey).
Qed.

End PathFacts.

(** ** The text of a derived identifier *)

Section DerivedText.

Import Multiformats KeyDerivation Traffic.

Lemma length_text alphabet ds :
  String.length (text alphabet ds) = List.length ds.
Proof. induction ds as [|d ds IH]; cbn; [reflexivity | now rewrite IH]. Qed.

Lemma length_groups5 n : forall l, (List.length l <= n)%nat ->
  List.length (groups5 l) = ((List.length l + 4) / 5)%nat.
Proof.
  induction n as [|n IH]; intros l Hlen.
  - destruct l; [reflexivity | cbn in Hlen; lia].
  - destruct l as [|b0 [|b1 [|b2 [|b3 [|b4 l]]]]]; try reflexivity.
    cbn [groups5 List.length]. rewrite IH by (cbn in Hlen; lia).
    replace (S (S (S (S (S (List.length l)))) ) + 4)%nat
      with (List.length l + 4 + 1 * 5)%nat by lia.
    rewrite Nat.div_add by lia. lia.
Qed.

Lemma length_bits8 bytes :
  List.length (flat_map bits8 bytes) = (8 * List.length bytes)%nat.
Proof.
  induction bytes as [|b bytes IH]; [reflexivity|].
  cbn [flat_map]. rewrite length_app, IH. cbn. lia.
Qed.

Lemma text_in_alphabet alphabet ds :
  alphabet_ok alphabet ->
  Forall (fun d => 0 <= d < Z.of_nat (String.length alphabet)) ds ->
  Forall (fun c => index_of c alphabet <> None)
         (list_ascii_of_string (text alphabet ds)).
Proof.
  intros Hok. induction 1 as [|d ds Hd _ IH]; cbn; constructor; [|exact IH].
  rewrite (Hok d Hd). discriminate.
Qed.

Lemma in_alphabet_plain alphabet s :
  index_of "%" alphabet = None ->
  Forall (fun c => index_of c alphabet <> None) (list_ascii_of_string s) ->
  plain s.
Proof.
  intros Hpercent. induction s as [|c s IH]; cbn; [trivial|].
  intros H. inversion H as [|? ? Hc Hs]; subst. split; [|now apply IH].
  intros ->. contradiction.
Qed.

Lemma base32_text_shape bytes :
  let s := base32_encode bytes in
  String.length s = S ((8 * List.length bytes + 4) / 5)
  /\ Forall (fun c => index_of c base32_alphabet <> None)
            (list_ascii_of_string s)
  /\ plain s.
Proof.
  intros s. subst s. unfold base32_encode.
  destruct (groups5_spec _ (flat_map bits8 bytes) (le_n _)) as [Hrange _].
  assert (Hin : Forall (fun c => index_of c base32_alphabet <> None)
                  (list_ascii_of_string
                     (String "b"
                        (text base32_alphabet
                           (groups5 (flat_map bits8 bytes)))))).
  { cbn [list_ascii_of_string]. constructor; [discriminate|].
    apply text_in_alphabet; [exact base32_alphabet_ok | exact Hrange]. }
  split; [|split].
  - cbn [String.length].
    now rewrite length_text, (length_groups5 _ _ (le_n _)), length_bits8.
  - exact Hin.
  - apply (in_alphabet_plain base32_alphabet); [reflexivity | exact Hin].
Qed.

Lemma derived_text_plain (topic : string) (c : CID) :
  pubsubTopicToDhtKeyCid topic = Some c ->
  JS.decodeURIComponent (CID_toString c) = Some (CID_toString c).
Proof.
  intros Hc. rewrite derived_identifier in Hc. injection Hc as <-.
  apply Decode_plain.
  unfold spec_identifier, CID_toString. cbn [cid_version cid_bytes].
  change (1 =? 0) with false. cbv iota. apply base32_text_shape.
Qed.

(** X10 - The text of a derived identifier.  For every topic the string
    form of the derived identifier starts with [bafkrei], is 59 characters
    long, is made of characters of the base32 alphabet only, and so goes
    through [decodeURIComponent] unchanged. *)
Theorem derived_text_shape (topic : string) :
  exists s rest,
    derive topic = Some s
    /\ s = "bafkrei" ++ rest
    /\ String.length s = 59%nat
    /\ Forall (fun c => index_of c base32_alphabet <> None)
              (list_ascii_of_string s)
    /\ JS.decodeURIComponent s = Some s.
Proof.
  pose proof (derived_identifier topic) as Hcid.
  set (hash := SHA256.array (TextEncoder_encode ("floodsub:" ++ topic))) in *.
  pose proof (sha256_length (TextEncoder_encode ("floodsub:" ++ topic)))
    as Hlen. fold hash in Hlen.
  destruct (base32_text_shape (1 :: 0x55 :: 0x12 :: 32 :: hash))
    as (Hl & Hin & Hplain).
  destruct hash as [|h0 hash']; [discriminate|].
  eexists. eexists. split; [|split; [|split; [|split]]].
  - unfold derive. rewrite Hcid. reflexivity.
  - unfold spec_identifier, CID_toString. cbn [cid_version cid_bytes].
    reflexivity.
  - unfold spec_identifier, CID_toString. cbn [cid_version cid_bytes].
    change (1 =? 0) with false. cbv iota. rewrite Hl.
    cbn [List.length]. cbn [List.length] in Hlen. injection Hlen as ->.
    reflexivity.
  - exact Hin.
  - apply Decode_plain. exact Hplain.
Qed.

End DerivedText.

(** ** From the announcement to the answer *)

Section EndToEnd.

Import JS Router Traffic.

(** X11 - What [main] announces is found.  With the modelled identifiers,
    for every topic: the announcement of the derived identifier succeeds; a
    GET for the providers route followed by its string form reads the key
    the derivation gives; it is answered 200 with the announced record
    until 24 hours after the announcement, and 404 from then on. *)
Theorem announced_topic_is_found
        (URL : string -> string -> option string) (topic : string)
        (c : Multiformats.CID) (r : PeerRecord) (t0 : Z) (s : state)
        (req : IncomingMessage) (now_check now_evict : Z) :
  KeyDerivation.pubsubTopicToDhtKeyCid topic = Some c ->
  URL (url_or_root req) (baseUrl req)
  = Some (providers_path (Multiformats.CID_toString c)) ->
  method req = "GET" ->
  let announced :=
    announceProvider (P := multiformats_platform URL) c r t0 s in
  fst announced = Normal tt
  /\ requested_key (P := multiformats_platform URL) req
     = KeyDerivation.derive topic
  /\ (now_check < t0 + PROVIDER_TTL_MS ->
      fst (handler (P := multiformats_platform URL) req now_check now_evict
             (snd announced))
      = Normal (json 200 (Providers [r])))
  /\ (t0 + PROVIDER_TTL_MS <= now_check ->
      fst (handler (P := multiformats_platform URL) req now_check now_evict
             (snd announced))
      = Normal (json 404 (Providers []))).
Proof.
  intros Hcid Hurl Hget announced. subst announced.
  destruct (derived_well_formed topic) as (c' & Hc' & Hwf).
  assert (c' = c) as -> by congruence. clear Hc'.
  pose proof (derived_text_plain topic c Hcid) as Hdec.
  assert (Hd : KeyDerivation.derive topic
               = Some (Multiformats.CID_toString c))
    by (unfold KeyDerivation.derive; now rewrite Hcid).
  rewrite (announce_well_formed URL c r t0 s Hwf). cbn [fst snd].
  assert (Hkey : requested_key (P := multiformats_platform URL) req
                 = Some (Multiformats.CID_toString c)).
  { destruct (providers_path_route (P := multiformats_platform URL)
                req (Multiformats.CID_toString c) Hurl Hget) as [_ Hkey].
    rewrite Hkey, Hdec. unfold normalize.
    cbn [CID_parse CID_toString multiformats_platform].
    now rewrite (parse_toString c Hwf). }
  split; [reflexivity|]. split; [now rewrite Hkey, Hd|].
  set (e := {| peerRecord := r; expiresAt := t0 + PROVIDER_TTL_MS |}).
  assert (Hstored :
            JSMap.get (Multiformats.CID_toString c)
              (providersByCid
                 (with_providers s
                    (JSMap.set (Multiformats.CID_toString c) e
                       (providersByCid s)))) = Some e)
    by (cbn; apply get_set_same).
  split; intros Htime;
    rewrite (handler_requested_key _ _ _ _ _ Hkey); cbn [fst].
  - now rewrite (lookup_live _ _ _ now_evict e Hstored Htime).
  - assert (Hnone : fst (lookup (Multiformats.CID_toString c) now_check
                           now_evict
                           (providersByCid
                              (with_providers s
                                 (JSMap.set (Multiformats.CID_toString c) e
                                    (providersByCid s))))) = None).
    { apply lookup_None. right. now exists e. }
    now rewrite Hnone.
Qed.

End EndToEnd.

(** ** Routing fields and services *)

Section MoreMapFacts.

Variable V : Type.
Implicit Types (m : JSMap.t V) (k : string) (v : V).

Lemma keys_set_absent m k v :
  ~ In k (JSMap.keys m) ->
  JSMap.keys (JSMap.set k v m) = (JSMap.keys m ++ [k])%list.
Proof.
  induction m as [|[k0 v0] m IH]; cbn; intros Hnotin; [reflexivity|].
  destruct (String.eqb_spec k0 k) as [->|Hk]; [tauto|].
  cbn. f_equal. apply IH. tauto.
Qed.

Lemma get_In m k v : JSMap.get k m = Some v -> In k (JSMap.keys m).
Proof.
  intros Hget. destruct (in_dec string_dec k (JSMap.keys m)) as [H|H];
    [exact H|]. apply get_None_iff in H. congruence.
Qed.

End MoreMapFacts.

Section RoutingFields.

Import JS DelegatedRouting.

Lemma append_inj_l p a b : p ++ a = p ++ b -> a = b.
Proof.
  induction p as [|c p IH]; cbn; [auto|]. intros [= H]. now apply IH.
Qed.

Lemma index_text_inj i j : index_text i = index_text j -> i = j.
Proof.
  unfold index_text. intros H.
  assert (E : Some (Nat.to_uint i) = Some (Nat.to_uint j))
    by (rewrite <- !DecimalString.NilEmpty.usu; now rewrite H).
  injection E as E.
  rewrite <- (DecimalNat.Unsigned.of_to i), <- (DecimalNat.Unsigned.of_to j).
  now rewrite E.
Qed.

Lemma field_name_inj i j : field_name i = field_name j -> i = j.
Proof. intros H. apply index_text_inj. eapply append_inj_l. exact H. Qed.

Lemma NoDup_field_names l : NoDup l -> NoDup (map field_name l).
Proof.
  induction 1 as [|i l Hnotin _ IH]; cbn; constructor; [|exact IH].
  intros Hin. apply in_map_iff in Hin. destruct Hin as (j & E & Hj).
  apply field_name_inj in E. now subst.
Qed.

Variable Method : Type.
Variable create : string -> completion (object Method).

Lemma routingClient_spec router :
  match create router with
  | Throw e => routingClient Method create router = Throw e
  | Normal made =>
      match JSMap.get "getProviders" made with
      | Some (method m) =>
          exists client,
            routingClient Method create router = Normal client
            /\ JSMap.get "getProviders" client = Some (logged (method m))
            /\ JSMap.get "getIPNS" client = Some undefined
            /\ JSMap.get "getPeers" client = Some undefined
            /\ JSMap.get "putIPNS" client = Some undefined
            /\ forall name,
                 name <> "getProviders" -> name <> "getIPNS" ->
                 name <> "getPeers" -> name <> "putIPNS" ->
                 JSMap.get name client = JSMap.get name made
      | Some (logged original) =>
          exists client,
            routingClient Method create router = Normal client
            /\ JSMap.get "getProviders" client
               = Some (logged (logged original))
      | Some undefined => routingClient Method create router = Throw TypeError
      | None => routingClient Method create router = Throw TypeError
      end
  end.
Proof.
  unfold routingClient.
  destruct (create router) as [made|e]; [|reflexivity].
  destruct (JSMap.get "getProviders" made) as [[|m|original]|];
    cbn [bind]; try reflexivity.
  - eexists. split; [reflexivity|].
    split; [rewrite !get_set_other by discriminate; apply get_set_same|].
    split; [rewrite !get_set_other by discriminate; apply get_set_same|].
    split; [rewrite !get_set_other by discriminate; apply get_set_same|].
    split; [apply get_set_same|].
    intros name H1 H2 H3 H4. now rewrite !get_set_other by assumption.
  - eexists. split; [reflexivity|].
    rewrite !get_set_other by discriminate. apply get_set_same.
Qed.

(** The two ways the client of a router fails: the constructor of the
    library throws, or the client it made has no [getProviders] to bind. *)
Lemma routingClient_Throw router e :
  routingClient Method create router = Throw e
  <-> create router = Throw e
      \/ exists made,
           create router = Normal made
           /\ e = TypeError
           /\ (JSMap.get "getProviders" made = None
               \/ JSMap.get "getProviders" made = Some undefined).
Proof.
  pose proof (routingClient_spec router) as H.
  destruct (create router) as [made|e'].
  - destruct (JSMap.get "getProviders" made) as [[|m|original]|] eqn:E.
    + rewrite H. split.
      * intros [= <-]. right. exists made. auto.
      * intros [[=]|(made' & _ & -> & _)]. reflexivity.
    + destruct H as (client & -> & _). split; [discriminate|].
      intros [[=]|(made' & [= <-] & _ & [H|H])]; congruence.
    + destruct H as (client & -> & _). split; [discriminate|].
      intros [[=]|(made' & [= <-] & _ & [H|H])]; congruence.
    + rewrite H. split.
      * intros [= <-]. right. exists made. auto.
      * intros [[=]|(made' & _ & -> & _)]. reflexivity.
  - rewrite H. split.
    + intros [= ->]. now left.
    + intros [[= ->]|(made & [=] & _)]. reflexivity.
Qed.

(** X12 - The client of one router.  When the constructor of the library
    throws, so does the construction, with the same error.  When it made a
    client with a [getProviders] function, the client handed out has it
    wrapped in the logging generator, has [getIPNS], [getPeers] and
    [putIPNS] set to [undefined], and every other property as the library
    made it; when [getProviders] is missing or [undefined] the construction
    throws [TypeError]. *)
Theorem routing_client router :
  match create router with
  | Throw e => routingClient Method create router = Throw e
  | Normal made =>
      match JSMap.get "getProviders" made with
      | Some (method m) =>
          exists client,
            routingClient Method create router = Normal client
            /\ JSMap.get "getProviders" client = Some (logged (method m))
            /\ JSMap.get "getIPNS" client = Some undefined
            /\ JSMap.get "getPeers" client = Some undefined
            /\ JSMap.get "putIPNS" client = Some undefined
            /\ forall name,
                 name <> "getProviders" -> name <> "getIPNS" ->
                 name <> "getPeers" -> name <> "putIPNS" ->
                 JSMap.get name client = JSMap.get name made
      | Some (logged original) =>
          exists client,
            routingClient Method create router = Normal client
            /\ JSMap.get "getProviders" client
               = Some (logged (logged original))
      | Some undefined => routingClient Method create router = Throw TypeError
      | None => routingClient Method create router = Throw TypeError
      end
  end.
Proof. exact (routingClient_spec router). Qed.

Lemma fields_from_spec routers : forall i acc obj,
  (forall k, In k (JSMap.keys acc) ->
             exists j, (j < i)%nat /\ k = field_name j) ->
  fields_from Method create i routers acc = Normal obj ->
  JSMap.keys obj
  = (JSMap.keys acc ++ map field_name (seq i (List.length routers)))%list
  /\ (forall k, In k (JSMap.keys acc) -> JSMap.get k obj = JSMap.get k acc)
  /\ (forall j router,
        nth_error routers j = Some router ->
        exists client,
          routingClient Method create router = Normal client
          /\ JSMap.get (field_name (i + j)%nat) obj = Some client).
Proof.
  induction routers as [|router routers IH]; intros i acc obj Hacc Hrun.
  - cbn in Hrun. injection Hrun as <-. cbn. rewrite app_nil_r.
    split; [reflexivity|]. split; [reflexivity|].
    intros [|j] router' H; discriminate.
  - cbn [fields_from] in Hrun.
    destruct (routingClient Method create router) as [client|e] eqn:Hclient;
      [|discriminate].
    assert (Hnew : ~ In (field_name i) (JSMap.keys acc)).
    { intros Hin. destruct (Hacc _ Hin) as (j & Hj & E).
      apply field_name_inj in E. lia. }
    destruct (IH (S i) (JSMap.set (field_name i) client acc) obj)
      as (Hkeys & Hold & Hnth); [|exact Hrun|].
    { intros k Hin. rewrite keys_set_absent in Hin by exact Hnew.
      apply in_app_iff in Hin. destruct Hin as [Hin|[<-|[]]].
      - destruct (Hacc _ Hin) as (j & Hj & E). exists j. split; [lia | exact E].
      - exists i. split; [lia | reflexivity]. }
    rewrite keys_set_absent in Hkeys, Hold by exact Hnew.
    split; [|split].
    + rewrite Hkeys, <- app_assoc. reflexivity.
    + intros k Hin. rewrite Hold by (apply in_app_iff; now left).
      apply get_set_other. intros ->. contradiction.
    + intros [|j] router' Hj; cbn in Hj.
      * injection Hj as <-. exists client. split; [exact Hclient|].
        rewrite Nat.add_0_r, Hold by (apply in_app_iff; right; now left).
        apply get_set_same.
      * destruct (Hnth j router' Hj) as (client' & Hc & Hg).
        exists client'. split; [exact Hc|].
        now replace (i + S j)%nat with (S i + j)%nat by lia.
Qed.

(** The loop stops at the first router whose client cannot be built, with
    the error of that construction. *)
Lemma fields_from_Throw routers : forall i acc e,
  fields_from Method create i routers acc = Throw e
  <-> exists n router,
        nth_error routers n = Some router
        /\ routingClient Method create router = Throw e
        /\ forall j earlier,
             (j < n)%nat -> nth_error routers j = Some earlier ->
             exists client,
               routingClient Method create earlier = Normal client.
Proof.
  induction routers as [|router routers IH]; intros i acc e;
    cbn [fields_from].
  - split; [discriminate|]. intros ([|n] & r & H & _); discriminate.
  - destruct (routingClient Method create router) as [client|e'] eqn:Hclient.
    + rewrite IH. split.
      * intros (n & r & Hn & Hr & Hbefore). exists (S n), r.
        split; [exact Hn|]. split; [exact Hr|].
        intros [|j] earlier Hj Hnth; cbn in Hnth.
        -- injection Hnth as <-. now exists client.
        -- apply (Hbefore j); [lia | exact Hnth].
      * intros ([|n] & r & Hn & Hr & Hbefore); cbn in Hn.
        -- injection Hn as <-. congruence.
        -- exists n, r. split; [exact Hn|]. split; [exact Hr|].
           intros j earlier Hj Hnth. apply (Hbefore (S j)); [lia | exact Hnth].
    + split.
      * intros [= ->]. exists 0%nat, router. split; [reflexivity|].
        split; [exact Hclient|]. intros j earlier Hj. lia.
      * intros ([|n] & r & Hn & Hr & Hbefore); cbn in Hn.
        -- injection Hn as <-. congruence.
        -- destruct (Hbefore 0%nat router) as [client Hc];
             [lia | reflexivity | congruence].
Qed.

Lemma fields_from_Normal routers : forall i acc,
  (forall router, In router routers ->
     exists client, routingClient Method create router = Normal client) ->
  exists obj, fields_from Method create i routers acc = Normal obj.
Proof.
  induction routers as [|router routers IH]; intros i acc Hall;
    cbn [fields_from]; [now eexists|].
  destruct (Hall router (or_introl eq_refl)) as [client ->].
  apply IH. intros router' Hin. apply Hall. now right.
Qed.

Lemma getDelegatedRoutingFields_spec routers :
  (forall obj,
      getDelegatedRoutingFields Method create routers = Normal obj ->
      JSMap.keys obj = map field_name (seq 0%nat (List.length routers))
      /\ NoDup (JSMap.keys obj)
      /\ forall i router,
           nth_error routers i = Some router ->
           exists client,
             routingClient Method create router = Normal client
             /\ JSMap.get (field_name i) obj = Some client)
  /\ (forall e,
         getDelegatedRoutingFields Method create routers = Throw e
         <-> exists n router,
               nth_error routers n = Some router
               /\ routingClient Method create router = Throw e
               /\ forall j earlier,
                    (j < n)%nat -> nth_error routers j = Some earlier ->
                    exists client,
                      routingClient Method create earlier = Normal client)
  /\ (forall e,
         getDelegatedRoutingFields Method create routers = Throw e ->
         exists router,
           In router routers
           /\ (create router = Throw e
               \/ exists made,
                    create router = Normal made
                    /\ e = TypeError
                    /\ (JSMap.get "getProviders" made = None
                        \/ JSMap.get "getProviders" made = Some undefined)))
  /\ ((forall router e, create router = Throw e -> e = TypeError) ->
      forall e,
        getDelegatedRoutingFields Method create routers = Throw e ->
        e = TypeError)
  /\ ((forall router, In router routers ->
         exists client, routingClient Method create router = Normal client) ->
      exists obj, getDelegatedRoutingFields Method create routers = Normal obj).
Proof.
  unfold getDelegatedRoutingFields.
  assert (Hcause : forall e,
    fields_from Method create 0 routers JSMap.empty = Throw e ->
    exists router,
      In router routers
      /\ (create router = Throw e
          \/ exists made,
               create router = Normal made
               /\ e = TypeError
               /\ (JSMap.get "getProviders" made = None
                   \/ JSMap.get "getProviders" made = Some undefined))).
  { intros e Hrun. apply fields_from_Throw in Hrun.
    destruct Hrun as (n & router & Hn & Hr & _).
    exists router. split; [eapply nth_error_In; exact Hn|].
    now apply routingClient_Throw. }
  split; [|split; [|split; [|split]]].
  - intros obj Hrun.
    destruct (fields_from_spec routers 0%nat JSMap.empty obj)
      as (Hkeys & _ & Hnth);
      [intros k []| exact Hrun|].
    cbn [JSMap.empty JSMap.keys map app] in Hkeys.
    split; [exact Hkeys|]. split; [|exact Hnth].
    rewrite Hkeys. apply NoDup_field_names, seq_NoDup.
  - intros e. apply fields_from_Throw.
  - exact Hcause.
  - intros Honly e Hrun.
    destruct (Hcause e Hrun) as (router & _ & [H|(made & _ & -> & _)]);
      [exact (Honly router e H) | reflexivity].
  - apply fields_from_Normal.
Qed.

(** X13 - One field per router.  When [getDelegatedRoutingFields]
    returns, the object has the fields [delegatedRouting0],
    [delegatedRouting1], ... in order, one per router and no two alike, and
    field [i] holds the client of router [i].  It throws exactly when the
    client of some router cannot be built, and then with the error of the
    first such router: the error the constructor of the library threw for
    it, or [TypeError] when the client made lacks [getProviders]; so it
    throws only [TypeError] when the constructor throws nothing else.  It
    returns whenever every client can be built. *)
Theorem routing_fields routers :
  (forall obj,
      getDelegatedRoutingFields Method create routers = Normal obj ->
      JSMap.keys obj = map field_name (seq 0%nat (List.length routers))
      /\ NoDup (JSMap.keys obj)
      /\ forall i router,
           nth_error routers i = Some router ->
           exists client,
             routingClient Method create router = Normal client
             /\ JSMap.get (field_name i) obj = Some client)
  /\ (forall e,
         getDelegatedRoutingFields Method create routers = Throw e
         <-> exists n router,
               nth_error routers n = Some router
               /\ routingClient Method create router = Throw e
               /\ forall j earlier,
                    (j < n)%nat -> nth_error routers j = Some earlier ->
                    exists client,
                      routingClient Method create earlier = Normal client)
  /\ (forall e,
         getDelegatedRoutingFields Method create routers = Throw e ->
         exists router,
           In router routers
           /\ (create router = Throw e
               \/ exists made,
                    create router = Normal made
                    /\ e = TypeError
                    /\ (JSMap.get "getProviders" made = None
                        \/ JSMap.get "getProviders" made = Some undefined)))
  /\ ((forall router e, create router = Throw e -> e = TypeError) ->
      forall e,
        getDelegatedRoutingFields Method create routers = Throw e ->
        e = TypeError)
  /\ ((forall router, In router routers ->
         exists client, routingClient Method create router = Normal client) ->
      exists obj, getDelegatedRoutingFields Method create routers = Normal obj).
Proof. exact (getDelegatedRoutingFields_spec routers). Qed.

End RoutingFields.

Section AssignFacts.

Import DelegatedRouting.

Variable V : Type.
Implicit Types (target source : JSMap.t V) (k : string).

Lemma assign_get source : forall target k,
  NoDup (JSMap.keys source) ->
  JSMap.get k (Object_assign target source)
  = match JSMap.get k source with
    | Some v => Some v
    | None => JSMap.get k target
    end.
Proof.
  unfold Object_assign.
  induction source as [|[k0 v0] source IH]; intros target k Hnd;
    cbn [fold_left JSMap.get fst snd]; [reflexivity|].
  inversion Hnd as [|? ? Hnotin Hnd']; subst. rewrite IH by exact Hnd'.
  destruct (String.eqb_spec k0 k) as [->|Hne].
  - apply get_None_iff in Hnotin. rewrite Hnotin. apply get_set_same.
  - destruct (JSMap.get k source); [reflexivity|].
    apply get_set_other. congruence.
Qed.

Lemma assign_keys source : forall target,
  NoDup (JSMap.keys source) ->
  (forall k, In k (JSMap.keys source) -> ~ In k (JSMap.keys target)) ->
  JSMap.keys (Object_assign target source)
  = (JSMap.keys target ++ JSMap.keys source)%list.
Proof.
  unfold Object_assign.
  induction source as [|[k0 v0] source IH]; intros target Hnd Hnew;
    cbn [fold_left fst snd].
  - cbn. now rewrite app_nil_r.
  - change (JSMap.keys ((k0, v0) :: source)) with (k0 :: JSMap.keys source)
      in *.
    inversion Hnd as [|? ? Hnotin Hnd']; subst.
    assert (H0 : ~ In k0 (JSMap.keys target)) by (apply Hnew; now left).
    rewrite IH; [|exact Hnd'|].
    + rewrite keys_set_absent by exact H0. now rewrite <- app_assoc.
    + intros k Hin. rewrite keys_set_absent by exact H0.
      intros Hin'. apply in_app_iff in Hin'. destruct Hin' as [Hin'|[<-|[]]].
      * apply (Hnew k); [now right | exact Hin'].
      * contradiction.
Qed.

End AssignFacts.

Section Services.

Import JS DelegatedRouting.

Variable Method : Type.
Variable create : string -> completion (object Method).

Lemma field_name_fresh i :
  ~ In (field_name i) ["identify"; "pubsub"; "fetch"].
Proof.
  unfold field_name. cbn. intros [H|[H|[H|[]]]]; discriminate.
Qed.

Lemma tagged_keys (fields : JSMap.t (object Method)) :
  JSMap.keys (map (fun kv => (fst kv, delegatedRouting (snd kv))) fields)
  = JSMap.keys fields.
Proof.
  unfold JSMap.keys. rewrite map_map. reflexivity.
Qed.

Lemma tagged_get (fields : JSMap.t (object Method)) k :
  JSMap.get k (map (fun kv => (fst kv, delegatedRouting (snd kv))) fields)
  = option_map delegatedRouting (JSMap.get k fields).
Proof.
  induction fields as [|[k0 v0] fields IH]; cbn; [reflexivity|].
  now destruct (String.eqb k0 k).
Qed.

(** X14 - The services.  The services of [createPlebbitLikeHelia] are
    [identify], [pubsub] and [fetch], followed by one routing field per
    delegated router; the three are never overwritten by a routing field;
    without routers, or with none, they are all there is.  Building them
    throws exactly when routers were given and building their fields
    throws, with that error: the error the constructor of the library threw
    for one of the routers, or [TypeError] when the client made for it
    lacks [getProviders]. *)
Theorem services_fields delegatedRouters :
  let routers := match delegatedRouters with Some l => l | None => [] end in
  (forall svc,
      services Method create delegatedRouters = Normal svc ->
      JSMap.keys svc
      = (["identify"; "pubsub"; "fetch"]
           ++ map field_name (seq 0%nat (List.length routers)))%list
      /\ JSMap.get "identify" svc = Some identify
      /\ JSMap.get "pubsub" svc = Some gossipsub
      /\ JSMap.get "fetch" svc = Some libp2pFetch
      /\ forall i router,
           nth_error routers i = Some router ->
           exists client,
             routingClient Method create router = Normal client
             /\ JSMap.get (field_name i) svc
                = Some (delegatedRouting client))
  /\ (forall e,
         services Method create delegatedRouters = Throw e
         <-> routers <> []
             /\ getDelegatedRoutingFields Method create routers = Throw e)
  /\ (forall e,
         services Method create delegatedRouters = Throw e ->
         exists router,
           In router routers
           /\ (create router = Throw e
               \/ exists made,
                    create router = Normal made
                    /\ e = TypeError
                    /\ (JSMap.get "getProviders" made = None
                        \/ JSMap.get "getProviders" made = Some undefined))).
Proof.
  intros routers. subst routers. unfold services.
  destruct delegatedRouters as [[|router routers]|].
  - split; [|split]; [|split; [discriminate | tauto]|discriminate].
    intros svc [= <-]. cbn.
    repeat split. intros [|i] r H; discriminate.
  - destruct (getDelegatedRoutingFields_spec Method create (router :: routers))
      as (Hok & _ & Hcause & _).
    destruct (getDelegatedRoutingFields Method create (router :: routers))
      as [fields|e]; (split; [|split]); try discriminate.
    + intros svc [= <-].
      destruct (Hok fields eq_refl) as (Hkeys & Hnd & Hnth).
      set (source := map (fun kv => (fst kv, delegatedRouting (snd kv)))
                         fields).
      assert (Hsk : JSMap.keys source = JSMap.keys fields)
        by apply tagged_keys.
      assert (Hsnd : NoDup (JSMap.keys source)) by now rewrite Hsk.
      assert (Hbase : forall k, In k ["identify"; "pubsub"; "fetch"] ->
                                JSMap.get k source = None).
      { intros k Hin. apply get_None_iff. rewrite Hsk, Hkeys.
        intros Hin'. apply in_map_iff in Hin'.
        destruct Hin' as (i & <- & _). now apply field_name_fresh in Hin. }
      split; [|split; [|split; [|split]]].
      * rewrite assign_keys; [now rewrite Hsk, Hkeys|exact Hsnd|].
        intros k Hin. rewrite Hsk, Hkeys in Hin. apply in_map_iff in Hin.
        destruct Hin as (i & <- & _). apply field_name_fresh.
      * rewrite assign_get, Hbase by (cbn; auto). reflexivity.
      * rewrite assign_get, Hbase by (cbn; auto). reflexivity.
      * rewrite assign_get, Hbase by (cbn; auto). reflexivity.
      * intros i r Hi. destruct (Hnth i r Hi) as (client & Hc & Hg).
        exists client. split; [exact Hc|].
        rewrite assign_get by exact Hsnd. subst source.
        now rewrite tagged_get, Hg.
    + intros e. split; [discriminate|]. intros [_ H]. discriminate.
    + intros e'. split.
      * intros [= <-]. split; [discriminate | reflexivity].
      * now intros [_ [= <-]].
    + intros e' [= <-]. exact (Hcause e eq_refl).
  - split; [|split]; [|split; [discriminate | tauto]|discriminate].
    intros svc [= <-]. cbn.
    repeat split. intros [|i] r H; discriminate.
Qed.

End Services.

(** ** Worked examples

    The theorems above at concrete requests, on [Router.example_platform]:
    one provider announced at time 0 under the identifier of the default
    topic. *)

Section Examples.

Import JS Router.

Lemma derive_default_topic :
  KeyDerivation.derive KeyDerivation.DEFAULT_PUBSUB_TOPIC = Some example_cid.
Proof. vm_compute. reflexivity. Qed.

(** The scenario of the specification, section 8: the announced identifier
    is served, another one is not found, and [not-a-cid] is refused. *)
Lemma scenario :
  fst (handler (P := example_platform)
         (GET ("/routing/v1/providers/" ++ example_cid)) 1000 1000 announced)
  = Normal (json 200 (Providers [peerA]))
  /\ fst (handler (P := example_platform)
            (GET ("/routing/v1/providers/" ++ other_cid))
            1000 1000 announced)
     = Normal (json 404 (Providers []))
  /\ fst (handler (P := example_platform)
            (GET "/routing/v1/providers/not-a-cid") 1000 1000 announced)
     = Normal (json 422 (Providers []))
  /\ fst (handler (P := example_platform) (GET "/ipns/x") 1000 1000 announced)
     = Normal (json 404 (message "not found")).
Proof. repeat split. Qed.

Lemma announced_reachable : reachable (P := example_platform) announced.
Proof.
  exact (reachable_step initial _ reachable_initial
           (step_announce (P := example_platform) example_cid peerA 0 initial)).
Defined.

Lemma ttl_correctness_witness :
  PROVIDER_TTL_MS = PROVIDER_TTL_MS
  /\ announceProvider (P := example_platform) example_cid peerA 0 initial
     = (Normal tt, announced)
  /\ lookup example_cid (0 + PROVIDER_TTL_MS - 1) 0 (providersByCid announced)
     = (Some peerA, providersByCid announced)
  /\ fst (lookup example_cid (0 + PROVIDER_TTL_MS + 1) 0
            (providersByCid announced)) = None.
Proof.
  split; [reflexivity|]. split; [reflexivity|].
  destruct (ttl_correctness (P := example_platform) example_cid peerA
              PROVIDER_TTL_MS 0 initial announced eq_refl eq_refl)
    as (k & Hk & Hlive & Hdead & _).
  injection Hk as <-. split; [apply Hlive | apply Hdead].
Defined.

Lemma eviction_on_read_witness :
  reachable (P := example_platform) announced
  /\ JSMap.get example_cid (providersByCid announced) = Some stored
  /\ expiresAt stored <= 86400000
  /\ 86400000 <= 86400005
  /\ snd (lookup example_cid 86400000 86400005 (providersByCid announced)) = []
  /\ handler (P := example_platform)
       (GET ("/routing/v1/providers/" ++ example_cid)) 86400000 86400005
       announced
     = (Normal (json 404 (Providers [])),
        {| providersByCid := []; providerQueryCount := 1 |}).
Proof.
  assert (H1 : JSMap.get example_cid (providersByCid announced) = Some stored)
    by reflexivity.
  assert (H2 : expiresAt stored <= 86400000) by (cbn; lia).
  assert (H3 : 86400000 <= 86400005) by lia.
  split; [exact announced_reachable|]. split; [exact H1|].
  split; [exact H2|]. split; [exact H3|].
  destruct (eviction_on_read (P := example_platform) announced example_cid
              stored 86400000 86400005 announced_reachable H1 H2 H3)
    as (_ & Hdel & _ & Hreq & _).
  split; [exact Hdel|].
  exact (Hreq (GET ("/routing/v1/providers/" ++ example_cid)) eq_refl).
Defined.

Lemma single_entry_overwrite_witness :
  reachable (P := example_platform) initial
  /\ exists k,
       JSMap.get k
         (providersByCid
            (snd (announceProvider (P := example_platform) example_cid peerB 5
                    announced)))
       = Some {| peerRecord := peerB; expiresAt := 5 + PROVIDER_TTL_MS |}
       /\ JSMap.entries_for k
            (providersByCid
               (snd (announceProvider (P := example_platform) example_cid peerB
                       5 announced))) = 1%nat.
Proof.
  split; [exact reachable_initial|].
  destruct (single_entry_overwrite (P := example_platform) initial
              reachable_initial) as (_ & Hover).
  destruct (Hover example_cid peerA peerB 0 5 announced _ eq_refl eq_refl)
    as (k & _ & Hget & Hone & _).
  exists k. split; [exact Hget | exact Hone].
Defined.


Lemma directory_frame_witness :
  requested_key (P := example_platform) (GET "/routing/v1/providers/bother")
    <> Some example_cid
  /\ JSMap.get example_cid
       (providersByCid
          (snd (handler (P := example_platform)
                  (GET "/routing/v1/providers/bother") 86400000 86400000
                  announced)))
     = JSMap.get example_cid (providersByCid announced).
Proof.
  assert (H : requested_key (P := example_platform)
                (GET "/routing/v1/providers/bother") <> Some example_cid)
    by (vm_compute; discriminate).
  split; [exact H|].
  exact (proj1 (proj2 (directory_frame (P := example_platform)))
           (GET "/routing/v1/providers/bother") 86400000 86400000 announced
           example_cid H).
Defined.

Lemma announce_contract_witness :
  CID_parse (Platform := example_platform)
    (CID_toString (Platform := example_platform) example_cid)
  = Some example_cid
  /\ fst (announceProvider (P := example_platform) example_cid peerA 0 initial)
     = Normal tt
  /\ JSMap.get example_cid (providersByCid announced) = Some stored.
Proof.
  split; [reflexivity|].
  destruct (announce_contract (P := example_platform) example_cid example_cid
              peerA 0 initial eq_refl) as (Hok & Hget & _).
  split; [exact Hok | exact Hget].
Defined.

Lemma exceptions_leave_handler_witness :
  URL_pathname (Platform := example_platform)
    (url_or_root (GET "/routing/v1/providers/%E0%A4%A"))
    (baseUrl (GET "/routing/v1/providers/%E0%A4%A"))
  = Some "/routing/v1/providers/%E0%A4%A"
  /\ String.eqb (method (GET "/routing/v1/providers/%E0%A4%A")) "GET"
     && startsWith "/routing/v1/providers/%E0%A4%A" providers_route = true
  /\ decodeURIComponent
       (slice "/routing/v1/providers/%E0%A4%A" (String.length providers_route))
     = None
  /\ handler (P := example_platform) (GET "/routing/v1/providers/%E0%A4%A")
       0 0 initial
     = (Throw URIError, {| providersByCid := []; providerQueryCount := 1 |}).
Proof.
  split; [reflexivity|]. split; [reflexivity|]. split; [reflexivity|].
  exact (proj1 (exceptions_leave_handler (P := example_platform)
                  (GET "/routing/v1/providers/%E0%A4%A") 0 0 initial)
           "/routing/v1/providers/%E0%A4%A" eq_refl eq_refl eq_refl).
Defined.

Lemma lone_percent_not_answered_witness :
  URL_pathname (Platform := example_platform)
    "/routing/v1/providers/%" "http://127.0.0.1:25150"
  = Some "/routing/v1/providers/%"
  /\ handler (P := example_platform) (GET "/routing/v1/providers/%") 0 0
       announced
     = (Throw URIError, bump announced).
Proof.
  split; [reflexivity|].
  exact (proj1 (lone_percent_not_answered (P := example_platform) 0 0 announced
                  eq_refl)).
Defined.

Lemma key_derivation_witness :
  KeyDerivation.hashed_message KeyDerivation.DEFAULT_PUBSUB_TOPIC
  = KeyDerivation.hashed_message "/plebbit/pubsub-repro/1"
  /\ KeyDerivation.DEFAULT_PUBSUB_TOPIC = "/plebbit/pubsub-repro/1".
Proof.
  split; [reflexivity|].
  exact (proj1 (proj2 key_derivation)
           KeyDerivation.DEFAULT_PUBSUB_TOPIC "/plebbit/pubsub-repro/1"
           eq_refl).
Defined.

Lemma identifier_round_trip_witness :
  Multiformats.canonical_string example_cid
  /\ option_map Multiformats.CID_toString (Multiformats.CID_parse example_cid)
     = Some example_cid.
Proof.
  assert (H : Multiformats.canonical_string example_cid).
  { destruct (derived_well_formed KeyDerivation.DEFAULT_PUBSUB_TOPIC)
      as (c & Hc & Hwf).
    exists c. split; [exact Hwf|].
    pose proof derive_default_topic as Hd. unfold KeyDerivation.derive in Hd.
    rewrite Hc in Hd. now injection Hd. }
  split; [exact H | exact (proj1 identifier_round_trip _ H)].
Defined.

(** *** The further properties at concrete requests *)

Lemma responses_are_json_witness :
  fst (handler (P := example_platform)
         (GET (Traffic.providers_path example_cid)) 1000 1000 announced)
  = Normal (json 200 (Providers [peerA]))
  /\ contentType (json 200 (Providers [peerA])) = "application/json".
Proof.
  assert (H : fst (handler (P := example_platform)
                     (GET (Traffic.providers_path example_cid)) 1000 1000
                     announced)
              = Normal (json 200 (Providers [peerA]))) by reflexivity.
  split; [exact H|].
  exact (proj1 (responses_are_json (P := example_platform) _ _ _ _ _ H)).
Defined.

Lemma served_record_is_live_witness :
  fst (handler (P := example_platform)
         (GET (Traffic.providers_path example_cid)) 1000 1000 announced)
  = Normal (json 200 (Providers [peerA]))
  /\ exists k e,
       requested_key (P := example_platform)
         (GET (Traffic.providers_path example_cid)) = Some k
       /\ JSMap.get k (providersByCid announced) = Some e
       /\ 1000 < expiresAt e
       /\ body (json 200 (Providers [peerA])) = Providers [peerRecord e].
Proof.
  assert (H : fst (handler (P := example_platform)
                     (GET (Traffic.providers_path example_cid)) 1000 1000
                     announced)
              = Normal (json 200 (Providers [peerA]))) by reflexivity.
  split; [exact H|].
  exact (proj1 (served_record_is_live (P := example_platform) _ _ _ _ _ H)
           eq_refl).
Defined.

Lemma requests_never_write_witness :
  reachable (P := example_platform) announced
  /\ Nat.le
       (List.length
          (providersByCid
             (serve (P := example_platform)
                [(GET (Traffic.providers_path example_cid),
                  86400000, 86400000)]
                announced)))
       (List.length (providersByCid announced)).
Proof.
  split; [exact announced_reachable|].
  exact (proj2 (proj2 (requests_never_write (P := example_platform)
                         [(GET (Traffic.providers_path example_cid),
                           86400000, 86400000)]
                         announced announced_reachable))).
Defined.

Lemma live_entry_survives_witness :
  JSMap.get example_cid (providersByCid announced) = Some stored
  /\ (forall x,
        In x [(GET (Traffic.providers_path example_cid), 1000, 1000)] ->
        snd (fst x) < expiresAt stored)
  /\ JSMap.get example_cid
       (providersByCid
          (serve (P := example_platform)
             [(GET (Traffic.providers_path example_cid), 1000, 1000)]
             announced))
     = Some stored.
Proof.
  assert (H1 : JSMap.get example_cid (providersByCid announced) = Some stored)
    by reflexivity.
  assert (H2 : forall x,
             In x [(GET (Traffic.providers_path example_cid), 1000, 1000)] ->
             snd (fst x) < expiresAt stored).
  { intros x [<-|[]]. reflexivity. }
  split; [exact H1|]. split; [exact H2|].
  exact (live_entry_survives (P := example_platform) _ _ _ _ H1 H2).
Defined.

Lemma repeated_request_witness :
  reachable (P := example_platform) announced
  /\ fst (handler (P := example_platform)
            (GET (Traffic.providers_path example_cid)) 86400000 86400000
            (snd (handler (P := example_platform)
                    (GET (Traffic.providers_path example_cid))
                    86400000 86400000 announced)))
     = fst (handler (P := example_platform)
              (GET (Traffic.providers_path example_cid)) 86400000 86400000
              announced).
Proof.
  split; [exact announced_reachable|].
  exact (proj1 (repeated_request (P := example_platform)
                  (GET (Traffic.providers_path example_cid))
                  86400000 86400000 announced announced_reachable)).
Defined.


Lemma announce_size_witness :
  announceProvider (P := example_platform) example_cid peerA 0 initial
  = (Normal tt, announced)
  /\ exists k,
       normalize (P := example_platform) example_cid = Some k
       /\ List.length (providersByCid announced)
          = match JSMap.get k (providersByCid initial) with
            | Some _ => List.length (providersByCid initial)
            | None => S (List.length (providersByCid initial))
            end.
Proof.
  split; [reflexivity|].
  destruct (announce_size (P := example_platform) example_cid peerA 0 initial
              announced eq_refl) as (k & Hk & _ & _ & Hlen).
  exists k. split; [exact Hk | exact Hlen].
Defined.

Lemma percent_tail_throws_witness :
  URL_pathname (Platform := example_platform)
    (url_or_root (GET (Traffic.providers_path ("bafk" ++ "%"))))
    (baseUrl (GET (Traffic.providers_path ("bafk" ++ "%"))))
  = Some (Traffic.providers_path ("bafk" ++ "%"))
  /\ method (GET (Traffic.providers_path ("bafk" ++ "%"))) = "GET"
  /\ handler (P := example_platform)
       (GET (Traffic.providers_path ("bafk" ++ "%"))) 0 0 initial
     = (Throw URIError, bump initial).
Proof.
  split; [reflexivity|]. split; [reflexivity|].
  exact (proj2 (percent_tail_throws (P := example_platform)
                  (GET (Traffic.providers_path ("bafk" ++ "%"))) "bafk" 0 0
                  initial eq_refl eq_refl)).
Defined.

Lemma plain_segment_key_witness :
  URL_pathname (Platform := example_platform)
    (url_or_root (GET (Traffic.providers_path "bafk")))
    (baseUrl (GET (Traffic.providers_path "bafk")))
  = Some (Traffic.providers_path "bafk")
  /\ method (GET (Traffic.providers_path "bafk")) = "GET"
  /\ Traffic.plain "bafk"
  /\ requested_key (P := example_platform)
       (GET (Traffic.providers_path "bafk"))
     = normalize (P := example_platform) "bafk".
Proof.
  assert (Hplain : Traffic.plain "bafk")
    by (cbn; repeat split; discriminate).
  split; [reflexivity|]. split; [reflexivity|]. split; [exact Hplain|].
  exact (proj1 (proj2 (plain_segment_key (P := example_platform)
                         (GET (Traffic.providers_path "bafk")) "bafk" 0 0
                         initial eq_refl eq_refl Hplain))).
Defined.

Lemma announced_topic_is_found_witness :
  let URL := fun (input base : string) => Some input in
  let c :=
    KeyDerivation.spec_identifier
      (SHA256.array
         (KeyDerivation.TextEncoder_encode
            ("floodsub:" ++ KeyDerivation.DEFAULT_PUBSUB_TOPIC))) in
  let req := GET (Traffic.providers_path (Multiformats.CID_toString c)) in
  KeyDerivation.pubsubTopicToDhtKeyCid KeyDerivation.DEFAULT_PUBSUB_TOPIC
  = Some c
  /\ URL (url_or_root req) (baseUrl req)
     = Some (Traffic.providers_path (Multiformats.CID_toString c))
  /\ method req = "GET"
  /\ 1000 < 0 + PROVIDER_TTL_MS
  /\ fst (handler (P := multiformats_platform URL) req 1000 1000
            (snd (announceProvider (P := multiformats_platform URL) c peerA 0
                    initial)))
     = Normal (json 200 (Providers [peerA])).
Proof.
  intros URL c req.
  pose proof (derived_identifier KeyDerivation.DEFAULT_PUBSUB_TOPIC) as Hc.
  assert (Ht : 1000 < 0 + PROVIDER_TTL_MS) by reflexivity.
  split; [exact Hc|]. split; [reflexivity|]. split; [reflexivity|].
  split; [exact Ht|].
  exact (proj1 (proj2 (proj2
           (announced_topic_is_found URL KeyDerivation.DEFAULT_PUBSUB_TOPIC c
              peerA 0 initial req 1000 1000 Hc eq_refl eq_refl))) Ht).
Defined.

Lemma routing_fields_witness :
  (exists obj,
      DelegatedRouting.getDelegatedRoutingFields string
        DelegatedRouting.example_client ["http://127.0.0.1:25150/"]
      = Normal obj
      /\ JSMap.keys obj = map DelegatedRouting.field_name (seq 0%nat 1%nat))
  /\ DelegatedRouting.getDelegatedRoutingFields string
       DelegatedRouting.example_client
       ["http://127.0.0.1:25150/"; "not a url"]
     = Throw TypeError
  /\ exists n router,
       nth_error ["http://127.0.0.1:25150/"; "not a url"] n = Some router
       /\ DelegatedRouting.routingClient string
            DelegatedRouting.example_client router
          = Throw TypeError
       /\ forall j earlier,
            (j < n)%nat ->
            nth_error ["http://127.0.0.1:25150/"; "not a url"] j
            = Some earlier ->
            exists client,
              DelegatedRouting.routingClient string
                DelegatedRouting.example_client earlier
              = Normal client.
Proof.
  split; [|split; [reflexivity|]].
  - eexists. split; [reflexivity|].
    exact (proj1 (proj1 (routing_fields string DelegatedRouting.example_client
                           ["http://127.0.0.1:25150/"]) _ eq_refl)).
  - exact (proj1 (proj1 (proj2
             (routing_fields string DelegatedRouting.example_client
                ["http://127.0.0.1:25150/"; "not a url"])) TypeError)
             eq_refl).
Defined.

Lemma services_fields_witness :
  (exists svc,
      DelegatedRouting.services string DelegatedRouting.example_client
        (Some ["http://127.0.0.1:25150/"])
      = Normal svc
      /\ JSMap.keys svc
         = (["identify"; "pubsub"; "fetch"]
              ++ map DelegatedRouting.field_name (seq 0%nat 1%nat))%list)
  /\ DelegatedRouting.services string DelegatedRouting.example_client
       (Some ["not a url"])
     = Throw TypeError
  /\ ["not a url"] <> []
  /\ DelegatedRouting.getDelegatedRoutingFields string
       DelegatedRouting.example_client ["not a url"]
     = Throw TypeError.
Proof.
  split; [|split; [reflexivity|]].
  - eexists. split; [reflexivity|].
    exact (proj1 (proj1 (services_fields string DelegatedRouting.example_client
                           (Some ["http://127.0.0.1:25150/"])) _ eq_refl)).
  - exact (proj1 (proj1 (proj2
             (services_fields string DelegatedRouting.example_client
                (Some ["not a url"]))) TypeError)
             eq_refl).
Defined.

End Examples.
